(** * Double-word arithmetic of libtwofloat: a shallow embedding

    The program is [include/libtwofloat/arithmetics/double-word-arithmetic.hpp].
    Native floating-point numbers are the [spec_float] values of the Standard
    Library, every native operation is the IEEE-754 round-to-nearest-even
    operation at a format [(prec, emax)]: [(53, 1024)] is C++ [double],
    [(24, 128)] is C++ [float].  The templates of the source become
    definitions inside a section over the format. *)

From Stdlib Require Import ZArith Bool List Lia.
From Stdlib Require Import Floats.SpecFloat.
From Stdlib Require Import Reals Lra.
Import ListNotations.
Local Open Scope Z_scope.

(** ** Native layer: the operations of the type [T] *)

Section Native.
Variables prec emax : Z.

Definition fadd : spec_float -> spec_float -> spec_float := SFadd prec emax.
Definition fsub : spec_float -> spec_float -> spec_float := SFsub prec emax.
Definition fmul : spec_float -> spec_float -> spec_float := SFmul prec emax.
Definition fdiv : spec_float -> spec_float -> spec_float := SFdiv prec emax.
Definition fsqrt : spec_float -> spec_float := SFsqrt prec emax.
Definition fneg : spec_float -> spec_float := SFopp.
Definition fabs : spec_float -> spec_float := SFabs.
Definition feq : spec_float -> spec_float -> bool := SFeqb.
Definition flt : spec_float -> spec_float -> bool := SFltb.
Definition fgt (x y : spec_float) : bool := SFltb y x.

(** [std::fma]: the product is formed exactly and added with one rounding.
    When an operand of the product is a zero, an infinity or a NaN the
    product is exact already. *)
Definition ffma (x y z : spec_float) : spec_float :=
  match x, y with
  | S754_finite sx mx ex, S754_finite sy my ey =>
      match z with
      | S754_zero _ => SFmul prec emax x y
      | _ => SFadd prec emax
               (S754_finite (xorb sx sy) (Pos.mul mx my) (Z.add ex ey)) z
      end
  | _, _ => SFadd prec emax (SFmul prec emax x y) z
  end.

(** [std::floor]: the largest integral value not above the argument. *)
Definition ffloor (x : spec_float) : spec_float :=
  match x with
  | S754_finite s m e =>
      if Z.leb 0 e then x
      else binary_normalize prec emax
             (Z.shiftr (cond_Zopp s (Zpos m)) (Z.opp e)) 0 s
  | _ => x
  end.


Definition is_finite (x : spec_float) : bool :=
  match x with
  | S754_finite _ _ _ | S754_zero _ => true
  | _ => false
  end.


(** [static_cast<int>]: truncation towards zero.  A value that does not fit
    in [int] (or a NaN) has no defined result in C++; the model returns the
    "integer indefinite" value [INT_MIN] of the x86-64 conversion. *)
Definition INT_MIN : Z := - 2 ^ 31.
Definition INT_MAX : Z := 2 ^ 31 - 1.

Definition to_int (x : spec_float) : Z :=
  match x with
  | S754_zero _ => 0
  | S754_finite s m e =>
      let n := if Z.leb 0 e then cond_Zopp s (Z.shiftl (Zpos m) e)
               else cond_Zopp s (Z.shiftr (Zpos m) (Z.opp e)) in
      if Z.leb INT_MIN n && Z.leb n INT_MAX then n else INT_MIN
  | _ => INT_MIN
  end.

(** [std::abs(int)], with the two's complement wrap at [INT_MIN]. *)
Definition int_abs (k : Z) : Z :=
  if Z.eqb k INT_MIN then INT_MIN else Z.abs k.

(** Conversion of a native value to [bool], as in [if (x)]: true unless the
    value compares equal to zero. *)
Definition to_bool (x : spec_float) : bool := negb (feq x (S754_zero false)).

(** A floating literal of the source: a [double] constant [m * 10^e10],
    correctly rounded, then converted to [T]. *)
Definition lit_double (m : Z) (e10 : Z) : spec_float :=
  match m with
  | Z0 => S754_zero false
  | _ =>
      if Z.leb 0 e10 then binary_normalize 53 1024 (m * 10 ^ e10) 0 false
      else
        match 10 ^ (- e10) with
        | Zpos d =>
            SFdiv 53 1024
              (S754_finite (Z.ltb m 0) (Z.to_pos (Z.abs m)) 0)
              (S754_finite false d 0)
        | _ => S754_nan
        end
  end.

Definition of_double (d : spec_float) : spec_float :=
  match d with
  | S754_finite s m e => binary_round prec emax s m e
  | _ => d
  end.

Definition lit (m : Z) (e10 : Z) : spec_float := of_double (lit_double m e10).

Definition zeropointzero : spec_float := S754_zero false.
Definition pointfive : spec_float := lit 5 (-1).
Definition onepointzero : spec_float := lit 1 0.
Definition twopointzero : spec_float := lit 2 0.

(** ** The value type [two<T>] and the primitives of [algorithms]

    [twofloat.hpp] and [algorithms.hpp] are not part of the sources at hand;
    the definitions of this part follow section 4.1 of the specification. *)

(** Modelled from the spec: the value type [two<T>] of [twofloat.hpp], an
    ordered pair [(high, low)] that stands for [high + low]. *)
Record two : Type := mk_two { h : spec_float; l : spec_float }.

(** Modelled from the spec: [two<T>::eval], the collapse of a double-word to
    its native approximation [high + low]. *)
Definition eval (x : two) : spec_float := fadd (h x) (l x).

(** Modelled from the spec: [algorithms::TwoSum] (ExactSum), the six
    operation algorithm of Knuth and Moller as Joldes et al. (2017) give it,
    which needs no order between [a] and [b].  [err] is the rounding error
    of the sum unless an intermediate result overflows. *)
Definition TwoSum (a b : spec_float) : two :=
  let s := fadd a b in
  let a' := fsub s b in
  let b' := fsub s a' in
  let da := fsub a a' in
  let db := fsub b b' in
  mk_two s (fadd da db).

(** Modelled from the spec: [algorithms::TwoDiff] (ExactDiff), the same
    contract for [a - b]. *)
Definition TwoDiff (a b : spec_float) : two := TwoSum a (fneg b).

(** Modelled from the spec: [algorithms::FastTwoSum] (FastSum), the three
    operation normalisation, whose [err] is right only when [|a| >= |b|]. *)
Definition FastTwoSum (a b : spec_float) : two :=
  let s := fadd a b in
  let z := fsub s a in
  mk_two s (fsub b z).

(** Modelled from the spec: [algorithms::fma], the fused multiply-add. *)
Definition fma : spec_float -> spec_float -> spec_float -> spec_float := ffma.

(** Modelled from the spec: [algorithms::Fast2Prod] (ExactProduct, realised
    with the fused multiply-add: [err = fma(a, b, -prod)]). *)
Definition Fast2Prod (a b : spec_float) : two :=
  let p := fmul a b in
  mk_two p (fma a b (fneg p)).

(** Modelled from the spec: [algorithms::Split], the mantissa split of
    Veltkamp with the splitter [2^ceil(prec/2) + 1]. *)
Definition splitter : spec_float :=
  binary_normalize prec emax (2 ^ ((prec + 1) / 2) + 1) 0 false.

Definition Split (x : spec_float) : two :=
  let c := fmul splitter x in
  let hi := fsub c (fsub c x) in
  mk_two hi (fsub x hi).

(** Modelled from the spec: [algorithms::TwoProd] (ExactProduct).  With
    [useFMA] it is the fused realisation [Fast2Prod]; without, the split
    based realisation of Dekker: both operands are split and the four
    partial products are combined, as [qd::two_sqr] does for a square.  The
    two agree as long as no partial result overflows or underflows. *)
Definition TwoProd (useFMA : bool) (a b : spec_float) : two :=
  if useFMA then Fast2Prod a b
  else
    let p := fmul a b in
    let sa := Split a in
    let sb := Split b in
    let t1 := fsub (fmul (h sa) (h sb)) p in
    let t2 := fadd t1 (fmul (h sa) (l sb)) in
    let t3 := fadd t2 (fmul (l sa) (h sb)) in
    mk_two p (fadd t3 (fmul (l sa) (l sb))).

(** ** The arithmetic kernel *)

Inductive Mode : Type := Fast | Accurate | Sloppy.

(** [add(const two<T>&, T)], algorithm DWPlusFP. *)
Definition add_dw_fp (x : two) (y : spec_float) : two :=
  let s := TwoSum (h x) y in
  let v := fadd (l x) (l s) in
  FastTwoSum (h s) v.

(** [add(T, const two<T>&)]. *)
Definition add_fp_dw (x : spec_float) (y : two) : two := add_dw_fp y x.

(** [sub(const two<T>&, T)]. *)
Definition sub_dw_fp (x : two) (y : spec_float) : two :=
  let s := TwoDiff (h x) y in
  let v := fadd (l x) (l s) in
  FastTwoSum (h s) v.

(** [sub(T, const two<T>&)]. *)
Definition sub_fp_dw (x : spec_float) (y : two) : two :=
  let s := TwoDiff x (h y) in
  let v := fsub (l s) (l y) in
  FastTwoSum (h s) v.

(** [add<Mode::Sloppy>], SloppyDWPlusDW. *)
Definition add_sloppy (x y : two) : two :=
  let s := TwoSum (h x) (h y) in
  let v := fadd (l x) (l y) in
  let w := fadd (l s) v in
  FastTwoSum (h s) w.

(** [add<Mode::Accurate>], AccurateDWPlusDW. *)
Definition add_accurate (x y : two) : two :=
  let s := TwoSum (h x) (h y) in
  let t := TwoSum (l x) (l y) in
  let c := fadd (l s) (h t) in
  let v := FastTwoSum (h s) c in
  let w := fadd (l t) (l v) in
  FastTwoSum (h v) w.

(** [add<mode>(const two<T>&, const two<T>&)]; [None] is the instantiation
    that the [static_assert] rejects. *)
Definition add (mode : Mode) (x y : two) : option two :=
  match mode with
  | Sloppy => Some (add_sloppy x y)
  | Accurate => Some (add_accurate x y)
  | Fast => None
  end.

Definition sub_sloppy (x y : two) : two :=
  let s := TwoDiff (h x) (h y) in
  let v := fsub (l x) (l y) in
  let w := fadd (l s) v in
  FastTwoSum (h s) w.

Definition sub_accurate (x y : two) : two :=
  let s := TwoDiff (h x) (h y) in
  let t := TwoDiff (l x) (l y) in
  let c := fadd (l s) (h t) in
  let v := FastTwoSum (h s) c in
  let w := fadd (l t) (l v) in
  FastTwoSum (h v) w.

(** [sub<mode>(const two<T>&, const two<T>&)]. *)
Definition sub (mode : Mode) (x y : two) : option two :=
  match mode with
  | Sloppy => Some (sub_sloppy x y)
  | Accurate => Some (sub_accurate x y)
  | Fast => None
  end.

(** [mul<p, useFMA>(const two<T>&, T)]: DWTimesFP3 with the fused
    multiply-add, DWTimesFP2 ([Fast]) and DWTimesFP1 ([Accurate]) without.
    The branches without the fused multiply-add call [algorithms::TwoProd]
    with no template argument; it is taken there as the split-based
    realisation. *)
Definition mul_dw_fp_fma (x : two) (y : spec_float) : two :=
  let c := Fast2Prod (h x) y in
  let cl3 := fma (l x) y (l c) in
  FastTwoSum (h c) cl3.

Definition mul_dw_fp_fast (x : two) (y : spec_float) : two :=
  let c := TwoProd false (h x) y in
  let cl2 := fmul (l x) y in
  let cl3 := fadd (l c) cl2 in
  FastTwoSum (h c) cl3.

Definition mul_dw_fp_accurate (x : two) (y : spec_float) : two :=
  let c := TwoProd false (h x) y in
  let cl2 := fmul (l x) y in
  let t := FastTwoSum (h c) cl2 in
  let tl2 := fadd (l t) (l c) in
  FastTwoSum (h t) tl2.

(** The chain over [p] follows the [useFMA] block and is instantiated
    whatever [useFMA] is, so [Mode::Sloppy] is rejected in both cases;
    [None] is the rejected instantiation. *)
Definition mul_dw_fp (p : Mode) (useFMA : bool) (x : two) (y : spec_float)
  : option two :=
  match p with
  | Sloppy => None
  | Fast => Some (if useFMA then mul_dw_fp_fma x y else mul_dw_fp_fast x y)
  | Accurate =>
      Some (if useFMA then mul_dw_fp_fma x y else mul_dw_fp_accurate x y)
  end.

(** [mul<p, useFMA>(T, const two<T>&)]. *)
Definition mul_fp_dw (p : Mode) (useFMA : bool) (x : spec_float) (y : two)
  : option two := mul_dw_fp p useFMA y x.

(** [mul<p, useFMA>(const two<T>&, const two<T>&)]: DWTimesDW2 ([Fast],
    fused), DWTimesDW3 ([Accurate], fused), DWTimesDW1 ([Fast], not fused). *)
Definition mul_fast_fma (x y : two) : two :=
  let c := Fast2Prod (h x) (h y) in
  let tl := fmul (h x) (l y) in
  let cl2 := fma (l x) (h y) tl in
  let cl3 := fadd (l c) cl2 in
  FastTwoSum (h c) cl3.

Definition mul_accurate_fma (x y : two) : two :=
  let c := Fast2Prod (h x) (h y) in
  let tl0 := fmul (l x) (l y) in
  let tl1 := fma (h x) (l y) tl0 in
  let cl2 := fma (l x) (h y) tl1 in
  let cl3 := fadd (l c) cl2 in
  FastTwoSum (h c) cl3.

Definition mul_fast (x y : two) : two :=
  let c := TwoProd false (h x) (h y) in
  let tl1 := fmul (h x) (l y) in
  let tl2 := fmul (l x) (h y) in
  let cl2 := fadd tl1 tl2 in
  let cl3 := fadd (l c) cl2 in
  FastTwoSum (h c) cl3.

Definition mul (p : Mode) (useFMA : bool) (x y : two) : option two :=
  match useFMA, p with
  | true, Fast => Some (mul_fast_fma x y)
  | true, Accurate => Some (mul_accurate_fma x y)
  | false, Fast => Some (mul_fast x y)
  | _, _ => None
  end.

(** [div<useFMA>(const two<T>&, T)], DWDivFP3. *)
Definition div_dw_fp (useFMA : bool) (x : two) (y : spec_float) : two :=
  let th := fdiv (h x) y in
  let pi := TwoProd useFMA th y in
  let deltah := fsub (h x) (h pi) in
  let deltat := fsub deltah (l pi) in
  let delta := fadd deltat (l x) in
  let tl := fdiv delta y in
  FastTwoSum th tl.

(** [div<Mode::Fast, useFMA>], DWDivDW2; the inner product is
    [mul<Mode::Accurate, useFMA>(y, th)]. *)
Definition div_fast (useFMA : bool) (x y : two) : two :=
  let th := fdiv (h x) (h y) in
  let r := if useFMA then mul_dw_fp_fma y th else mul_dw_fp_accurate y th in
  let pih := fsub (h x) (h r) in
  let deltal := fsub (l x) (l r) in
  let delta := fadd pih deltal in
  let tl := fdiv delta (h y) in
  FastTwoSum th tl.

(** [div<Mode::Accurate, true>], DWDivDW3.  The source writes
    [1 - y.h * th] with the native product and the native difference. *)
Definition div_accurate (x y : two) : two :=
  let th := fdiv onepointzero (h y) in
  let rh := fsub onepointzero (fmul (h y) th) in
  let rl := fneg (fmul (l y) th) in
  let e := FastTwoSum rh rl in
  let delta := mul_dw_fp_fma e th in
  let m := add_dw_fp delta th in
  mul_fast_fma x m.

Definition div (mode : Mode) (useFMA : bool) (x y : two) : option two :=
  match mode, useFMA with
  | Fast, _ => Some (div_fast useFMA x y)
  | Accurate, true => Some (div_accurate x y)
  | _, _ => None
  end.

(** ** Constants and tables *)

Definition _2pi : two :=
  mk_two (lit (6283185307179586232) (-18)) (lit (2449293598294706414) (-34)).
Definition _pi2 : two :=
  mk_two (lit (1570796326794896558) (-18)) (lit (6123233995736766036) (-35)).
Definition _pi16 : two :=
  mk_two (lit (1963495408493620697) (-19)) (lit (7654042494670957545) (-36)).
Definition _nan : spec_float := S754_nan.
Definition _eps : spec_float := lit (493038065763132) (-46).

Definition n_inv_fact : Z := 15.

Definition inv_fact : list (list spec_float) :=
  [
    [lit (166666666666666657) (-18); lit (925185853854297066) (-35)];
    [lit (416666666666666644) (-19); lit (231296463463574266) (-35)];
    [lit (833333333333333322) (-20); lit (115648231731787138) (-36)];
    [lit (138888888888888894) (-20); lit (-530054395437357706) (-37)];
    [lit (198412698412698413) (-21); lit (172095582934207053) (-39)];
    [lit (248015873015873016) (-22); lit (215119478667758816) (-40)];
    [lit (275573192239858925) (-23); lit (-185839327404647208) (-39)];
    [lit (275573192239858883) (-24); lit (237677146222502973) (-40)];
    [lit (250521083854417202) (-25); lit (-144881407093591197) (-41)];
    [lit (208767569878681002) (-26); lit (-120734505911325997) (-42)];
    [lit (160590438368216133) (-27); lit (125852945887520981) (-43)];
    [lit (114707455977297245) (-28); lit (206555127528307454) (-45)];
    [lit (764716373181981641) (-30); lit (703872877733453001) (-47)];
    [lit (477947733238738525) (-31); lit (439920548583408126) (-48)];
    [lit (281145725434552060) (-32); lit (165088427308614326) (-48)]
  ].

Definition cos_table : list (list spec_float) :=
  [
    [lit (9807852804032304306) (-19); lit (1854693999782500573) (-35)];
    [lit (9238795325112867385) (-19); lit (1764504708433667706) (-35)];
    [lit (8314696123025452357) (-19); lit (1407385698472802389) (-36)];
    [lit (7071067811865475727) (-19); lit (-4833646656726456726) (-35)]
  ].

Definition sin_table : list (list spec_float) :=
  [
    [lit (1950903220161282758) (-19); lit (-7991079068461731263) (-36)];
    [lit (3826834323650897818) (-19); lit (-1005077269646158761) (-35)];
    [lit (5555702330196021776) (-19); lit (4709410940561676821) (-35)];
    [lit (7071067811865475727) (-19); lit (-4833646656726456726) (-35)]
  ].

(** A table [T name[n][2]] is laid out row after row; [&name[0][0]] is a
    pointer to its first number.  [(ptr + i)[0]] and [(ptr + i)[1]] are the
    numbers at offsets [i] and [i + 1] of that layout.  An offset outside
    the table reads nothing defined; the model yields a NaN there. *)
Definition flat (table : list (list spec_float)) : list spec_float :=
  concat table.

Definition at_offset (ptr : list spec_float) (i : Z) : spec_float :=
  if Z.ltb i 0 then S754_nan else nth (Z.to_nat i) ptr S754_nan.

Definition pair_at (ptr : list spec_float) (i : Z) : two :=
  mk_two (at_offset ptr i) (at_offset ptr (i + 1)).

(** The double-word held by row [n] of a table. *)
Definition row (table : list (list spec_float)) (n : nat) : two :=
  match nth n table [] with
  | [a; b] => mk_two a b
  | _ => mk_two S754_nan S754_nan
  end.

(** ** Namespace [qd] *)

(** [qd::nint].  The condition of the [if] is the assignment
    [input = std::floor(input)], converted to [bool]. *)
Definition qd_nint (input : spec_float) : spec_float :=
  let input := ffloor input in
  if to_bool input then input
  else ffloor (fadd input pointfive).

(** [qd::two_sqr], returned as the pair (result, [err]). *)
Definition qd_two_sqr (input : spec_float) : spec_float * spec_float :=
  let q := fmul input input in
  let temp := Split input in
  let hi := h temp in
  let lo := l temp in
  let err :=
    fadd (fadd (fsub (fmul hi hi) q) (fmul (fmul twopointzero hi) lo))
         (fmul lo lo) in
  (q, err).

(** [qd::two_sum], returned as the pair (result, [err]). *)
Definition qd_two_sum (a b : spec_float) : spec_float * spec_float :=
  let s := fadd a b in
  let bb := fsub s a in
  let err := fsub (fsub a (fsub s bb)) (fsub b bb) in
  (s, err).

(** ** Namespace [dd_real] *)

Definition dd_real_sqr (input : spec_float) : two :=
  let '(p1, p2) := qd_two_sqr input in
  mk_two p1 p2.

Definition dd_real_add (a b : spec_float) : two :=
  let '(s, e) := qd_two_sum a b in
  mk_two s e.

(** ** Rounding to an integer, squaring *)

(** [nint(const two<T>&)]. *)
Definition nint (input : two) : two :=
  let hi := qd_nint (h input) in
  if feq hi (h input) then
    let lo := qd_nint (l input) in
    let temp := FastTwoSum hi lo in
    mk_two (h temp) (l temp)
  else
    let lo := zeropointzero in
    if feq (fabs (fsub hi (h input))) pointfive
       && flt (l input) zeropointzero
    then mk_two (fsub hi onepointzero) lo
    else mk_two hi lo.

(** [sqr(const two<T>&)]. *)
Definition sqr (input : two) : two :=
  let '(p1, p2) := qd_two_sqr (h input) in
  let p2 := fadd p2 (fmul (fmul twopointzero (h input)) (l input)) in
  let p2 := fadd p2 (fmul (l input) (l input)) in
  let temp := FastTwoSum p1 p2 in
  mk_two (h temp) (l temp).

Definition neg_two (x : two) : two := mk_two (fneg (h x)) (fneg (l x)).

(** [mul_pwr2]. *)
Definition mul_pwr2 (input : two) (b : spec_float) : two :=
  mk_two (fmul (h input) b) (fmul (l input) b).

(** ** Taylor kernels

    The [do ... while] loop of [sin_taylor] and [cos_taylor] works on the
    variables [i], [r], [s] and [t]; [x] and [thresh] do not change. *)

Record taylor_state : Type :=
  mk_state { st_i : Z; st_r : two; st_s : two; st_t : two }.

(** The body of the loop. *)
Definition taylor_body (x : two) (st : taylor_state) : taylor_state :=
  let r := mul_accurate_fma (st_r st) x in
  let t := mul_accurate_fma r (pair_at (flat inv_fact) (st_i st)) in
  let s := add_accurate (st_s st) t in
  mk_state (st_i st + 2) r s t.

(** The condition [i < n_inv_fact && std::abs(t.eval()) > thresh]. *)
Definition taylor_again (thresh : spec_float) (st : taylor_state) : bool :=
  Z.ltb (st_i st) n_inv_fact && fgt (fabs (eval (st_t st))) thresh.

(** The loop, with the number of times the body ran; [None] when [fuel]
    bodies were not enough to leave it. *)
Fixpoint taylor_loop (fuel : nat) (x : two) (thresh : spec_float)
  (st : taylor_state) : option (taylor_state * nat) :=
  match fuel with
  | O => None
  | S fuel' =>
      let st' := taylor_body x st in
      if taylor_again thresh st' then
        match taylor_loop fuel' x thresh st' with
        | Some (st'', n) => Some (st'', S n)
        | None => None
        end
      else Some (st', 1%nat)
  end.

Definition sin_thresh (input : two) : spec_float :=
  fmul (fmul pointfive (fabs (eval input))) _eps.

Definition cos_thresh : spec_float := fmul pointfive _eps.

(** [sin_taylor], with the number of loop iterations. *)
Definition sin_taylor_run (fuel : nat) (input : two) : option (two * nat) :=
  let thresh := sin_thresh input in
  if feq (eval input) zeropointzero then
    Some (mk_two zeropointzero zeropointzero, 0%nat)
  else
    let temp := sqr input in
    let x := mk_two (fneg (h temp)) (fneg (l temp)) in
    match taylor_loop fuel x thresh
            (mk_state 0 input input (mk_two zeropointzero zeropointzero)) with
    | Some (st, n) => Some (st_s st, n)
    | None => None
    end.

(** [cos_taylor], with the number of loop iterations. *)
Definition cos_taylor_run (fuel : nat) (input : two) : option (two * nat) :=
  let thresh := cos_thresh in
  if feq (eval input) zeropointzero then
    Some (mk_two onepointzero zeropointzero, 0%nat)
  else
    let temp := sqr input in
    let x := mk_two (fneg (h temp)) (fneg (l temp)) in
    let r := x in
    let s := add_fp_dw onepointzero (mul_pwr2 r pointfive) in
    match taylor_loop fuel x thresh
            (mk_state 1 r s (mk_two zeropointzero zeropointzero)) with
    | Some (st, n) => Some (st_s st, n)
    | None => None
    end.

Definition nan_pair : two := mk_two _nan _nan.

(** The kernels as functions: [n_inv_fact] bodies are always enough (see
    [taylor_loop_terminates]), the NaN pair of the other case is never
    returned. *)
Definition sin_taylor (input : two) : two :=
  match sin_taylor_run (Z.to_nat n_inv_fact) input with
  | Some (s, _) => s
  | None => nan_pair
  end.

Definition cos_taylor (input : two) : two :=
  match cos_taylor_run (Z.to_nat n_inv_fact) input with
  | Some (s, _) => s
  | None => nan_pair
  end.

(** ** Square root *)

(** The three steps of Karp's trick in [sqrt]. *)
Definition sqrt_seed (input : two) : spec_float :=
  fdiv onepointzero (fsqrt (h input)).

Definition sqrt_ax (input : two) : spec_float :=
  fmul (h input) (sqrt_seed input).

Definition sqrt_correction (input : two) : spec_float :=
  let x := sqrt_seed input in
  let ax := sqrt_ax input in
  let temp := sub_accurate input (dd_real_sqr ax) in
  fmul (fmul (h temp) x) pointfive.

(** [sqrt(const two<T>&)]. *)
Definition sqrt (input : two) : two :=
  if feq (eval input) zeropointzero then mk_two zeropointzero zeropointzero
  else if flt (h input) zeropointzero then mk_two _nan _nan
  else dd_real_add (sqrt_ax input) (sqrt_correction input).

(** ** Sine *)

(** [sincos_taylor], the two results as a pair ([sin_a], [cos_a]). *)
Definition sincos_taylor (input : two) : two * two :=
  if feq (eval input) zeropointzero then
    (mk_two zeropointzero zeropointzero, mk_two onepointzero zeropointzero)
  else
    let sin_a := sin_taylor input in
    let cos_a := sqrt (sub_fp_dw onepointzero (sqr sin_a)) in
    (sin_a, cos_a).

(** The range reduction of [sin]: the remainder [r] modulo [2 pi], the
    integers [j] and [k], and the reduced argument [t]. *)
Record reduction : Type :=
  mk_reduction { red_r : two; red_j : Z; red_k : Z; red_t : two }.

Definition reduce (input : two) : reduction :=
  let z := nint (div_accurate input _2pi) in
  let r := sub_accurate input (mul_accurate_fma _2pi z) in
  let q := ffloor (fadd (fdiv (h r) (h _pi2)) pointfive) in
  let t := sub_accurate r (mul_dw_fp_fma _pi2 q) in
  let j := to_int q in
  let q := ffloor (fadd (fdiv (h t) (h _pi16)) pointfive) in
  let t := sub_accurate t (mul_dw_fp_fma _pi16 q) in
  let k := to_int q in
  mk_reduction r j k t.

(** The combination step of [sin], for [k <> 0]. *)
Definition combine (r : two) (j k : Z) (u v sin_t cos_t : two) : two :=
  let M := mul_accurate_fma in
  if Z.eqb j 0 then
    if Z.ltb 0 k then add_accurate (M u sin_t) (M v cos_t)
    else sub_accurate (M u sin_t) (M v cos_t)
  else if Z.eqb j 1 then
    if Z.ltb 0 k then sub_accurate (M u cos_t) (M v sin_t)
    else add_accurate (M u cos_t) (M v sin_t)
  else if Z.eqb j (-1) then
    if Z.ltb 0 k then sub_accurate (M v sin_t) (M u cos_t)
    else if Z.ltb k 0 then sub_accurate (neg_two (M u cos_t)) (M v sin_t)
    else r
  else
    if Z.ltb 0 k then sub_accurate (neg_two (M u sin_t)) (M v cos_t)
    else sub_accurate (M v cos_t) (M u sin_t).

(** [sin(const two<T>&)]. *)
Definition sin (input : two) : two :=
  if feq (eval input) zeropointzero then mk_two zeropointzero zeropointzero
  else
    let red := reduce input in
    let j := red_j red in
    let k := red_k red in
    let t := red_t red in
    let abs_k := int_abs k in
    if Z.ltb j (-2) || Z.ltb 2 j then mk_two _nan _nan
    else if Z.ltb 4 abs_k then mk_two _nan _nan
    else if Z.eqb k 0 then
      if Z.eqb j 0 then sin_taylor t
      else if Z.eqb j 1 then cos_taylor t
      else if Z.eqb j (-1) then
        mk_two (fneg (h (cos_taylor t))) (fneg (l (cos_taylor t)))
      else mk_two (fneg (h (sin_taylor t))) (fneg (l (sin_taylor t)))
    else
      let u := pair_at (flat cos_table) (2 * (abs_k - 1)) in
      let v := pair_at (flat sin_table) (2 * (abs_k - 1)) in
      let '(sin_t, cos_t) := sincos_taylor t in
      combine (red_r red) j k u v sin_t cos_t.

End Native.

(** ** The two instantiations: [double] and [float] *)

Definition F64 (m : Z) (e : Z) : spec_float :=
  binary_normalize 53 1024 m e false.
Definition F32 (m : Z) (e : Z) : spec_float :=
  binary_normalize 24 128 m e false.

(** The table entry used by run [n] (counted from 0) of the body of a loop
    that starts at [i = i0]. *)
Definition taylor_entry (prec emax : Z) (i0 : Z) (n : nat) : two :=
  pair_at (flat (inv_fact prec emax)) (i0 + 2 * Z.of_nat n).

(** [n] runs of the body. *)
Fixpoint taylor_runs (prec emax : Z) (n : nat) (x : two) (st : taylor_state)
  : taylor_state :=
  match n with
  | O => st
  | S n' => taylor_body prec emax x (taylor_runs prec emax n' x st)
  end.

(** ** Notions used by the statements *)

(** [DoubleWord(0,0)]. *)
Definition zero_dw : two := mk_two zeropointzero zeropointzero.

(** A double-word is finite when both components are. *)
Definition finite_dw (x : two) : bool := is_finite (h x) && is_finite (l x).

(** A finite number other than the negative zero. *)
Definition plain (a : spec_float) : bool :=
  match a with
  | S754_finite _ _ _ | S754_zero false => true
  | _ => false
  end.

(** The normalised case of the data model: the high component is the
    rounded sum of the two components. *)
Definition normalized (prec emax : Z) (x : two) : Prop :=
  fadd prec emax (h x) (l x) = h x.

(** The non-overlap test [|low| <= ulp(high)] of the data model. *)
Definition non_overlap (prec emax : Z) (x : two) : bool :=
  SFleb (fabs (l x)) (SFulp prec emax (h x)).

(** The machine epsilon of the format, [2^(1 - prec)], and the thresholds
    that claim C9 words: [0.5 * |x| * eps^2] and [0.5 * eps^2]. *)
Definition machine_epsilon (prec emax : Z) : spec_float :=
  binary_normalize prec emax 1 (1 - prec) false.

Definition eps_squared (prec emax : Z) : spec_float :=
  fmul prec emax (machine_epsilon prec emax) (machine_epsilon prec emax).

Definition sin_thresh_claimed (prec emax : Z) (input : two) : spec_float :=
  fmul prec emax
    (fmul prec emax (pointfive prec emax) (fabs (eval prec emax input)))
    (eps_squared prec emax).

Definition cos_thresh_claimed (prec emax : Z) : spec_float :=
  fmul prec emax (pointfive prec emax) (eps_squared prec emax).

(** [n!], and the real number that a finite native value or a double-word
    stands for. *)
Fixpoint factorial (n : nat) : Z :=
  match n with
  | O => 1
  | S k => Z.of_nat n * factorial k
  end.

Definition SF2R (x : spec_float) : R :=
  match x with
  | S754_finite s m e =>
      if Z.leb 0 e then IZR (cond_Zopp s (Zpos m) * 2 ^ e)
      else (IZR (cond_Zopp s (Zpos m)) / IZR (2 ^ (- e)))%R
  | _ => 0%R
  end.

Definition value (x : two) : R := (SF2R (h x) + SF2R (l x))%R.

(** The table rows that the series of claim C1 asks for: run [n] of the
    sine loop adds the term in [x^(2n+3)], whose coefficient [1/(2n+3)!] is
    row [2n]; run [n] of the cosine loop adds the term in [x^(2n+4)], whose
    coefficient [1/(2n+4)!] is row [2n+1]. *)
Definition sin_row_claimed (n : nat) : nat := (2 * n)%nat.
Definition cos_row_claimed (n : nat) : nat := (2 * n + 1)%nat.




(** The test [std::abs(t.eval()) > thresh] of the Taylor loop on the term
    [t] of a loop state. *)
Definition term_exceeds (prec emax : Z) (thresh : spec_float)
  (st : taylor_state) : bool :=
  fgt (fabs (eval prec emax (st_t st))) thresh.

(** A zero of either sign. *)
Definition is_zero (a : spec_float) : bool :=
  match a with
  | S754_zero _ => true
  | _ => false
  end.

(** Closed statements about concrete numbers are settled by evaluation. *)
Ltac evaluate :=
  cbv zeta; repeat split; try reflexivity; try (vm_compute; discriminate).

(** ** Termination of the Taylor kernels *)

Section Termination.
Variables prec emax : Z.

Lemma taylor_body_i (x : two) (st : taylor_state) :
  st_i (taylor_body prec emax x st) = st_i st + 2.
Proof. reflexivity. Qed.

Lemma taylor_again_bound (thresh : spec_float) (st : taylor_state) :
  taylor_again prec emax thresh st = true -> st_i st < n_inv_fact.
Proof.
  unfold taylor_again. intros H.
  apply andb_true_iff in H. destruct H as [H _].
  now apply Z.ltb_lt in H.
Qed.

(** Enough fuel: the loop leaves with a count between 1 and the bound that
    the table size gives. *)
Lemma taylor_loop_terminates (fuel : nat) :
  forall (x : two) (thresh : spec_float) (st : taylor_state),
    (0 < fuel)%nat ->
    n_inv_fact <= st_i st + 2 * Z.of_nat fuel ->
    exists st' n,
      taylor_loop prec emax fuel x thresh st = Some (st', n)
      /\ (1 <= n)%nat
      /\ 2 * Z.of_nat n <= Z.max 2 (n_inv_fact - st_i st + 1).
Proof.
  induction fuel as [|fuel IH]; intros x thresh st Hpos Hfuel.
  - lia.
  - cbn [taylor_loop].
    destruct (taylor_again prec emax thresh (taylor_body prec emax x st)) eqn:Hagain.
    + apply taylor_again_bound in Hagain. rewrite taylor_body_i in Hagain.
      destruct (IH x thresh (taylor_body prec emax x st)) as (st' & n & He & Hn & Hb).
      * unfold n_inv_fact in *. lia.
      * rewrite taylor_body_i. lia.
      * rewrite He. exists st', (S n). split; [reflexivity|].
        split; [lia|]. rewrite taylor_body_i in Hb.
        unfold n_inv_fact in *. lia.
    + exists (taylor_body prec emax x st), 1%nat.
      split; [reflexivity|]. split; lia.
Qed.

(** More fuel does not change the result of a loop that has left. *)
Lemma taylor_loop_more_fuel (fuel : nat) :
  forall (x : two) (thresh : spec_float) (st : taylor_state) res,
    taylor_loop prec emax fuel x thresh st = Some res ->
    taylor_loop prec emax (S fuel) x thresh st = Some res.
Proof.
  induction fuel as [|fuel IH]; intros x thresh st res H.
  - discriminate.
  - cbn [taylor_loop] in H |- *.
    destruct (taylor_again prec emax thresh (taylor_body prec emax x st)).
    + destruct (taylor_loop prec emax fuel x thresh (taylor_body prec emax x st))
        as [[st1 n1]|] eqn:He; [|discriminate].
      apply IH in He. cbn [taylor_loop] in He. now rewrite He.
    + exact H.
Qed.

End Termination.

(** Claim C8.  [sin_taylor] and [cos_taylor] terminate on every input, of
    every format: with fuel for [n_inv_fact = 15] bodies the loop always
    leaves, after at most 8 bodies for the sine (i = 0, 2, ..., 14) and at
    most 7 for the cosine (i = 1, 3, ..., 13); both counts are below the 15
    entries of the table, whatever the input is (zero, finite, infinite
    or NaN). *)
Theorem taylor_kernels_terminate (prec emax : Z) (input : two) :
  (exists s n,
      sin_taylor_run prec emax (Z.to_nat n_inv_fact) input = Some (s, n)
      /\ sin_taylor prec emax input = s
      /\ (n <= 8)%nat /\ Z.of_nat n <= n_inv_fact)
  /\
  (exists s n,
      cos_taylor_run prec emax (Z.to_nat n_inv_fact) input = Some (s, n)
      /\ cos_taylor prec emax input = s
      /\ (n <= 7)%nat /\ Z.of_nat n <= n_inv_fact).
Proof.
  split.
  - unfold sin_taylor, sin_taylor_run.
    change (Z.to_nat n_inv_fact) with 15%nat.
    destruct (feq (eval prec emax input) zeropointzero).
    + eexists; exists 0%nat.
      split; [reflexivity|]. split; [reflexivity|].
      unfold n_inv_fact; lia.
    + match goal with
      | |- context [taylor_loop _ _ ?f ?x ?t ?st] =>
          destruct (taylor_loop_terminates prec emax f x t st)
            as (st' & n & He & Hn & Hb);
          [ lia | cbn [st_i]; unfold n_inv_fact; lia | rewrite He ]
      end.
      exists (st_s st'), n. cbn [st_i] in Hb. unfold n_inv_fact in *.
      split; [reflexivity|]. split; [reflexivity|]. lia.
  - unfold cos_taylor, cos_taylor_run.
    change (Z.to_nat n_inv_fact) with 15%nat.
    destruct (feq (eval prec emax input) zeropointzero).
    + eexists; exists 0%nat.
      split; [reflexivity|]. split; [reflexivity|].
      unfold n_inv_fact; lia.
    + match goal with
      | |- context [taylor_loop _ _ ?f ?x ?t ?st] =>
          destruct (taylor_loop_terminates prec emax f x t st)
            as (st' & n & He & Hn & Hb);
          [ lia | cbn [st_i]; unfold n_inv_fact; lia | rewrite He ]
      end.
      exists (st_s st'), n. cbn [st_i] in Hb. unfold n_inv_fact in *.
      split; [reflexivity|]. split; [reflexivity|]. lia.
Qed.

(** ** Square root: the order of the tests *)

Section SqrtTests.
Variables prec emax : Z.

Lemma flt_zero_not_eq (x : spec_float) :
  fgt x zeropointzero = true -> feq x zeropointzero = false.
Proof.
  unfold fgt, feq, SFltb, SFeqb, zeropointzero.
  destruct x as [s|s| |s m e]; cbn; try discriminate; destruct s; cbn;
    intros H; try discriminate; reflexivity.
Qed.

Lemma sqrt_of_zero (input : two) :
  feq (eval prec emax input) zeropointzero = true ->
  sqrt prec emax input = mk_two zeropointzero zeropointzero.
Proof. unfold sqrt. now intros ->. Qed.

Lemma sqrt_of_negative (input : two) :
  feq (eval prec emax input) zeropointzero = false ->
  flt (h input) zeropointzero = true ->
  sqrt prec emax input = nan_pair.
Proof. unfold sqrt. now intros -> ->. Qed.

Lemma sqrt_of_other (input : two) :
  feq (eval prec emax input) zeropointzero = false ->
  flt (h input) zeropointzero = false ->
  sqrt prec emax input
  = dd_real_add prec emax (sqrt_ax prec emax input)
      (sqrt_correction prec emax input).
Proof. unfold sqrt. now intros -> ->. Qed.

End SqrtTests.

(** Claim C10.  In [sqrt] the zero test, on [eval() = high + low], comes
    before the sign test, and the sign test looks at the high component
    only.  An input whose components sum to zero gives [(0,0)], also when
    its high component is negative; an input with a negative high component
    whose components sum to a positive value gives the NaN pair. *)
Theorem sqrt_zero_test_precedes_sign_test (prec emax : Z) (input : two) :
  (feq (eval prec emax input) zeropointzero = true ->
   sqrt prec emax input = mk_two zeropointzero zeropointzero)
  /\
  (flt (h input) zeropointzero = true ->
   fgt (eval prec emax input) zeropointzero = true ->
   sqrt prec emax input = mk_two S754_nan S754_nan).
Proof.
  split.
  - apply sqrt_of_zero.
  - intros Hneg Hpos. apply sqrt_of_negative; [|exact Hneg].
    now apply flt_zero_not_eq.
Qed.

(** [two<double>{-1.0, 1.0}] sums to zero with a negative high component;
    [two<double>{-1.0, 3.0}] sums to 2 with a negative high component. *)
Lemma sqrt_zero_test_precedes_sign_test_witness :
  (flt (h (mk_two (F64 (-1) 0) (F64 1 0))) zeropointzero = true
   /\ feq (eval 53 1024 (mk_two (F64 (-1) 0) (F64 1 0))) zeropointzero = true
   /\ sqrt 53 1024 (mk_two (F64 (-1) 0) (F64 1 0))
      = mk_two zeropointzero zeropointzero)
  /\
  (flt (h (mk_two (F64 (-1) 0) (F64 3 0))) zeropointzero = true
   /\ fgt (eval 53 1024 (mk_two (F64 (-1) 0) (F64 3 0))) zeropointzero = true
   /\ sqrt 53 1024 (mk_two (F64 (-1) 0) (F64 3 0))
      = mk_two S754_nan S754_nan).
Proof.
  split.
  - split; [reflexivity|]. split; [reflexivity|].
    apply (proj1 (sqrt_zero_test_precedes_sign_test 53 1024
                    (mk_two (F64 (-1) 0) (F64 1 0)))).
    reflexivity.
  - split; [reflexivity|]. split; [reflexivity|].
    apply (proj2 (sqrt_zero_test_precedes_sign_test 53 1024
                    (mk_two (F64 (-1) 0) (F64 3 0)))); reflexivity.
Defined.

(** ** Symmetry of the native operations and of the exact primitives *)

Section Symmetry.
Variables prec emax : Z.

Lemma fadd_comm (x y : spec_float) : fadd prec emax x y = fadd prec emax y x.
Proof.
  unfold fadd, SFadd.
  destruct x as [sx|sx| |sx mx ex], y as [sy|sy| |sy my ey];
    try reflexivity; try (destruct sx, sy; reflexivity).
  rewrite (Z.min_comm ey ex). f_equal. apply Z.add_comm.
Qed.











End Symmetry.




(** ** Adding the zero double-word *)

Section AddZero.
Variables prec emax : Z.

Lemma plain_finite (a : spec_float) : plain a = true -> is_finite a = true.
Proof. destruct a as [[|]| | |]; cbn; congruence. Qed.

Lemma fadd_zero_r (a : spec_float) :
  plain a = true -> fadd prec emax a zeropointzero = a.
Proof.
  unfold fadd, SFadd, zeropointzero.
  destruct a as [[|]| | |]; cbn; intros H; try reflexivity; discriminate.
Qed.

Lemma fadd_zero_l (a : spec_float) :
  plain a = true -> fadd prec emax zeropointzero a = a.
Proof.
  unfold fadd, SFadd, zeropointzero.
  destruct a as [[|]| | |]; cbn; intros H; try reflexivity; discriminate.
Qed.

Lemma fsub_zero_r (a : spec_float) :
  plain a = true -> fsub prec emax a zeropointzero = a.
Proof.
  unfold fsub, SFsub, zeropointzero.
  destruct a as [[|]| | |]; cbn; intros H; try reflexivity; discriminate.
Qed.

Lemma fsub_diag (a : spec_float) :
  plain a = true -> fsub prec emax a a = zeropointzero.
Proof.
  unfold fsub, SFsub, zeropointzero.
  destruct a as [[|]| | |s m e]; cbn [plain]; intros H;
    try reflexivity; try discriminate.
  cbv zeta. rewrite Z.sub_diag. reflexivity.
Qed.

Lemma TwoSum_zero_r (a : spec_float) :
  plain a = true -> TwoSum prec emax a zeropointzero = mk_two a zeropointzero.
Proof.
  intros Ha. unfold TwoSum.
  rewrite (fadd_zero_r a Ha), (fsub_zero_r a Ha), (fsub_diag a Ha).
  reflexivity.
Qed.

Lemma FastTwoSum_normalized (a b : spec_float) :
  plain a = true -> plain b = true -> fadd prec emax a b = a ->
  FastTwoSum prec emax a b = mk_two a b.
Proof.
  intros Ha Hb Hn. unfold FastTwoSum. rewrite Hn.
  now rewrite (fsub_diag a Ha), (fsub_zero_r b Hb).
Qed.

Lemma add_sloppy_zero (x : two) :
  plain (h x) = true -> plain (l x) = true -> normalized prec emax x ->
  add_sloppy prec emax x zero_dw = x.
Proof.
  intros Hh Hl Hn. destruct x as [a b]. cbn [h l] in *.
  unfold add_sloppy, zero_dw. cbn [h l].
  rewrite (TwoSum_zero_r a Hh). cbn [h l].
  rewrite (fadd_zero_r b Hl), (fadd_zero_l b Hl).
  now apply FastTwoSum_normalized.
Qed.

Lemma add_accurate_zero (x : two) :
  plain (h x) = true -> plain (l x) = true -> normalized prec emax x ->
  add_accurate prec emax x zero_dw = x.
Proof.
  intros Hh Hl Hn. destruct x as [a b]. cbn [h l] in *.
  unfold add_accurate, zero_dw. cbn [h l].
  rewrite (TwoSum_zero_r a Hh), (TwoSum_zero_r b Hl). cbn [h l].
  rewrite (fadd_zero_l b Hl).
  rewrite (FastTwoSum_normalized a b Hh Hl Hn). cbn [h l].
  rewrite (fadd_zero_l b Hl).
  now apply FastTwoSum_normalized.
Qed.

End AddZero.

(** Claim C6 fails as it is stated.  [two<double>{1.0, -0.0}] is finite and
    normalised (it is what [FastTwoSum(1.0, -0.0)] returns), and adding
    [DoubleWord(0,0)] gives [(1.0, +0.0)], whose low word has another sign
    bit, in both modes.  The pair [two<double>{1.0, 1.0}], finite but not
    normalised, comes back as [(2.0, 0.0)]. *)
Lemma add_zero_not_bit_exact :
  let x := mk_two (F64 1 0) (S754_zero true) in
  let u := mk_two (F64 1 0) (F64 1 0) in
  finite_dw x = true /\ normalized 53 1024 x
  /\ FastTwoSum 53 1024 (F64 1 0) (S754_zero true) = x
  /\ add 53 1024 Accurate x zero_dw = Some (mk_two (F64 1 0) (S754_zero false))
  /\ add 53 1024 Accurate x zero_dw <> Some x
  /\ add 53 1024 Sloppy x zero_dw <> Some x
  /\ finite_dw u = true
  /\ add 53 1024 Accurate u zero_dw = Some (mk_two (F64 2 0) (S754_zero false))
  /\ add 53 1024 Sloppy u zero_dw <> Some u.
Proof.
  evaluate.
Qed.

(** Claim C6, as amended.  In each supported mode (Sloppy, Accurate) and in
    every format, adding [DoubleWord(0,0)] to a finite double-word that is
    normalised and has no negative zero among its components returns that
    double-word, bit for bit. *)
Theorem add_zero_identity (prec emax : Z) (mode : Mode) (x : two) :
  mode <> Fast ->
  plain (h x) = true -> plain (l x) = true -> normalized prec emax x ->
  add prec emax mode x zero_dw = Some x.
Proof.
  intros Hm Hh Hl Hn. destruct mode; cbn [add].
  - now elim Hm.
  - now rewrite add_accurate_zero.
  - now rewrite add_sloppy_zero.
Qed.

(** [two<double>{1.0, 2^-60}] is finite, normalised and without a negative
    zero. *)
Lemma add_zero_identity_witness :
  let x := mk_two (F64 1 0) (F64 1 (-60)) in
  (plain (h x) = true /\ plain (l x) = true /\ normalized 53 1024 x)
  /\ add 53 1024 Accurate x zero_dw = Some x
  /\ add 53 1024 Sloppy x zero_dw = Some x.
Proof.
  cbv zeta. split; [repeat split|split].
  - apply (add_zero_identity 53 1024 Accurate);
      [discriminate | reflexivity | reflexivity | reflexivity].
  - apply (add_zero_identity 53 1024 Sloppy);
      [discriminate | reflexivity | reflexivity | reflexivity].
Defined.

(** ** Rounding to the nearest integer *)

Lemma to_bool_floor_cases (x : spec_float) :
  to_bool x = true \/ x = S754_zero false \/ x = S754_zero true.
Proof.
  destruct x as [[|]|[|]| |[|] m e]; cbn; auto.
Qed.

(** Claim C2 does not hold of the code.  The condition of the [if] in
    [qd::nint] assigns [std::floor(input)] to [input]; the function returns
    that floor whenever it is not zero, and [+0] otherwise.  So [qd::nint]
    is [std::floor] (up to the sign of a zero): [qd::nint(2.75)] is 2, while
    3 is nearer, and the double-word [nint] of [(2.75, 0)] is [(2, 0)]. *)
Theorem qd_nint_is_floor :
  (forall x : spec_float,
      qd_nint 53 1024 x = ffloor 53 1024 x
      \/ (ffloor 53 1024 x = S754_zero true
          /\ qd_nint 53 1024 x = S754_zero false))
  /\ qd_nint 53 1024 (F64 11 (-2)) = F64 2 0
  /\ flt (fabs (fsub 53 1024 (F64 11 (-2)) (F64 3 0)))
         (fabs (fsub 53 1024 (F64 11 (-2)) (F64 2 0))) = true
  /\ nint 53 1024 (mk_two (F64 11 (-2)) zeropointzero)
     = mk_two (F64 2 0) zeropointzero
  /\ qd_nint 24 128 (F32 11 (-2)) = F32 2 0.
Proof.
  split; [|repeat split; reflexivity].
  intros x. unfold qd_nint.
  destruct (to_bool_floor_cases (ffloor 53 1024 x)) as [H|[H|H]].
  - rewrite H. now left.
  - rewrite H. left. reflexivity.
  - rewrite H. right. split; reflexivity.
Qed.

(** ** The sign slip of [qd::two_sum] *)

(** Claim C4 does not hold of the code for positive inputs.  For
    [two<double>{2.0, 0.0}] the high word of [sqrt] is the rounded sum of
    [ax] and the correction [temp.h * x / 2], but its low word is the
    rounding error of that sum with the opposite sign: [qd::two_sum]
    subtracts [(b - bb)] where the exact transformation (and [TwoSum]) adds
    it.  The result stands for [ax + correction - 2 * error]. *)
Theorem sqrt_low_word_has_wrong_sign :
  let input := mk_two (F64 2 0) zeropointzero in
  let ax := sqrt_ax 53 1024 input in
  let c := sqrt_correction 53 1024 input in
  let r := sqrt 53 1024 input in
  feq (eval 53 1024 input) zeropointzero = false
  /\ flt (h input) zeropointzero = false
  /\ h r = fadd 53 1024 ax c
  /\ TwoSum 53 1024 ax c = mk_two (h r) (F64 (- 7843040109683800) (-106))
  /\ l r = F64 7843040109683800 (-106)
  /\ r <> TwoSum 53 1024 ax c.
Proof.
  evaluate.
Qed.

(** The same slip makes the two words of [dd_real::add] overlap when its
    second operand is the larger one: [dd_real::add(1.0, 2^53 + 2)] returns
    [(2^53 + 4, 3)], whose low word 3 is above the unit in the last place 2
    of the high word, where [TwoSum] returns [(2^53 + 4, -1)].  [sqrt] calls
    it with [ax] first and the small correction second; only an
    un-normalised argument such as [two<double>{1.0, 2^54 + 4}] brings the
    operands into the other order. *)
Example dd_real_add_with_larger_second_operand :
  let a := F64 1 0 in
  let b := F64 (2 ^ 53 + 2) 0 in
  let input := mk_two (F64 1 0) (F64 (2 ^ 54 + 4) 0) in
  dd_real_add 53 1024 a b = mk_two (F64 (2 ^ 53 + 4) 0) (F64 3 0)
  /\ SFulp 53 1024 (F64 (2 ^ 53 + 4) 0) = F64 2 0
  /\ non_overlap 53 1024 (dd_real_add 53 1024 a b) = false
  /\ TwoSum 53 1024 a b = mk_two (F64 (2 ^ 53 + 4) 0) (F64 (-1) 0)
  /\ non_overlap 53 1024 (TwoSum 53 1024 a b) = true
  /\ finite_dw input = true
  /\ flt (h input) zeropointzero = false
  /\ sqrt 53 1024 input = mk_two (F64 (2 ^ 53 + 4) 0) (F64 3 0)
  /\ non_overlap 53 1024 (sqrt 53 1024 input) = false.
Proof.
  evaluate.
Qed.

(** ** The table entries that the Taylor kernels read *)

Section TaylorEntries.
Variables prec emax : Z.

Lemma taylor_runs_index (n : nat) (x : two) (st : taylor_state) :
  st_i (taylor_runs prec emax n x st) = st_i st + 2 * Z.of_nat n.
Proof.
  induction n as [|n IH].
  - cbn [taylor_runs]. lia.
  - cbn [taylor_runs]. rewrite taylor_body_i, IH. lia.
Qed.

(** Run [n] of the body multiplies the power [r] by [taylor_entry i0 n]. *)
Lemma taylor_runs_term (n : nat) (x : two) (st : taylor_state) :
  st_t (taylor_runs prec emax (S n) x st)
  = mul_accurate_fma prec emax (st_r (taylor_runs prec emax (S n) x st))
      (taylor_entry prec emax (st_i st) n).
Proof.
  cbn [taylor_runs]. unfold taylor_body at 1. cbn [st_t st_r].
  unfold taylor_entry. now rewrite taylor_runs_index.
Qed.

(** The loop is a number of runs of its body. *)
Lemma taylor_loop_runs (fuel : nat) :
  forall x thresh st st' n,
    taylor_loop prec emax fuel x thresh st = Some (st', n) ->
    exists m, n = S m
              /\ st' = taylor_runs prec emax m x (taylor_body prec emax x st).
Proof.
  induction fuel as [|fuel IH]; intros x thresh st st' n; cbn [taylor_loop].
  - discriminate.
  - destruct (taylor_again prec emax thresh (taylor_body prec emax x st)).
    + destruct (taylor_loop prec emax fuel x thresh (taylor_body prec emax x st))
        as [[st1 n1]|] eqn:He; [|discriminate].
      intros [= <- <-].
      destruct (IH _ _ _ _ _ He) as (m & -> & ->).
      exists (S m). split; [reflexivity|]. cbn [taylor_runs].
      clear. induction m as [|m IHm]; cbn [taylor_runs]; [reflexivity|].
      now rewrite <- IHm.
    + intros [= <- <-]. exists 0%nat. split; reflexivity.
Qed.

(** The sine loop starts at offset 0 and reads the rows 0, 1, 2, ... *)
Lemma sin_entries :
  map (taylor_entry prec emax 0) (seq 0 8)
  = map (row (inv_fact prec emax)) (seq 0 8).
Proof. reflexivity. Qed.

(** The cosine loop starts at offset 1 and reads across two rows: the low
    word of row [n] as high word, the high word of row [n + 1] as low
    word. *)
Lemma cos_entries :
  map (taylor_entry prec emax 1) (seq 0 7)
  = map (fun n => mk_two (l (row (inv_fact prec emax) n))
                         (h (row (inv_fact prec emax) (S n)))) (seq 0 7).
Proof. reflexivity. Qed.

End TaylorEntries.

(** ** The early-termination thresholds *)

Section TaylorThresholds.
Variables prec emax : Z.

Lemma taylor_runs_shift (n : nat) (x : two) (st : taylor_state) :
  taylor_runs prec emax (S n) x st
  = taylor_runs prec emax n x (taylor_body prec emax x st).
Proof.
  induction n as [|n IH]; [reflexivity|].
  change (taylor_runs prec emax (S (S n)) x st)
    with (taylor_body prec emax x (taylor_runs prec emax (S n) x st)).
  now rewrite IH.
Qed.

(** The loop condition is the conjunction of the index test and the
    threshold test. *)
Lemma taylor_again_tests (thresh : spec_float) (st : taylor_state) :
  taylor_again prec emax thresh st
  = Z.ltb (st_i st) n_inv_fact && term_exceeds prec emax thresh st.
Proof. reflexivity. Qed.

(** The trace of a loop that leaves after [n] bodies: the final state is
    the state after [n] bodies, the condition fails there, and it held
    after each of the bodies before. *)
Lemma taylor_loop_trace (fuel : nat) :
  forall x thresh st st' n,
    taylor_loop prec emax fuel x thresh st = Some (st', n) ->
    (1 <= n)%nat
    /\ st' = taylor_runs prec emax n x st
    /\ taylor_again prec emax thresh (taylor_runs prec emax n x st) = false
    /\ (forall k, (1 <= k < n)%nat ->
          taylor_again prec emax thresh (taylor_runs prec emax k x st) = true).
Proof.
  induction fuel as [|fuel IH]; intros x thresh st st' n; cbn [taylor_loop].
  - discriminate.
  - destruct (taylor_again prec emax thresh (taylor_body prec emax x st))
      eqn:Hagain.
    + destruct (taylor_loop prec emax fuel x thresh (taylor_body prec emax x st))
        as [[st1 n1]|] eqn:He; [|discriminate].
      intros [= <- <-].
      destruct (IH _ _ _ _ _ He) as (Hn & Hst & Hex & Hbefore).
      rewrite taylor_runs_shift.
      split; [lia|]. split; [exact Hst|]. split; [exact Hex|].
      intros [|[|k]] Hk; [lia|exact Hagain|].
      rewrite taylor_runs_shift. apply Hbefore. lia.
    + intros [= <- <-].
      split; [lia|]. split; [reflexivity|]. split; [exact Hagain|].
      intros k Hk. lia.
Qed.

(** The same trace in terms of the two tests, for a loop that starts at
    the index [i0]. *)
Lemma taylor_loop_threshold (fuel : nat) (x : two) (thresh : spec_float)
  (st st' : taylor_state) (n : nat) :
  taylor_loop prec emax fuel x thresh st = Some (st', n) ->
  (1 <= n)%nat
  /\ st' = taylor_runs prec emax n x st
  /\ (forall k, (1 <= k < n)%nat ->
        st_i st + 2 * Z.of_nat k < n_inv_fact
        /\ term_exceeds prec emax thresh (taylor_runs prec emax k x st) = true)
  /\ (st_i st + 2 * Z.of_nat n < n_inv_fact ->
      term_exceeds prec emax thresh (taylor_runs prec emax n x st) = false).
Proof.
  intros Hloop.
  destruct (taylor_loop_trace fuel x thresh st st' n Hloop)
    as (Hn & Hst & Hex & Hbefore).
  split; [exact Hn|]. split; [exact Hst|]. split.
  - intros k Hk. specialize (Hbefore k Hk).
    rewrite taylor_again_tests, taylor_runs_index in Hbefore.
    apply andb_true_iff in Hbefore. destruct Hbefore as [Hi Ht].
    apply Z.ltb_lt in Hi. split; assumption.
  - intros Hi. rewrite taylor_again_tests, taylor_runs_index in Hex.
    apply Z.ltb_lt in Hi. rewrite Hi in Hex. exact Hex.
Qed.

End TaylorThresholds.

(** Claim C9 fails as it is stated: the thresholds are not built from the
    machine epsilon of [T].  For [float] the machine epsilon is [2^-23] and
    its square [2^-46], so the claimed thresholds at [x = 2^-8] are
    [0.5 * 2^-8 * 2^-46 = 2^-55] and [0.5 * 2^-46 = 2^-47]; the thresholds of
    the code are [2^-113] and [2^-105].  The kernels behave accordingly: at
    [two<float>{2^-8, 0}] the term after the third body of [sin_taylor] is
    below the claimed threshold and above the one of the code, and the loop
    goes on to run 6 bodies; [cos_taylor] runs 5 bodies where the claimed
    threshold is met after the second. *)
Lemma thresholds_are_not_epsilon_squared :
  let input := mk_two (F32 1 (-8)) zeropointzero in
  let x := neg_two (sqr 24 128 input) in
  let sin0 := mk_state 0 input input zero_dw in
  let cos0 :=
    mk_state 1 x
      (add_fp_dw 24 128 (onepointzero 24 128)
         (mul_pwr2 24 128 x (pointfive 24 128))) zero_dw in
  (machine_epsilon 24 128 = F32 1 (-23)
   /\ eps_squared 24 128 = F32 1 (-46)
   /\ sin_thresh_claimed 24 128 input = F32 1 (-55)
   /\ sin_thresh 24 128 input = F32 1 (-113)
   /\ cos_thresh_claimed 24 128 = F32 1 (-47)
   /\ cos_thresh 24 128 = F32 1 (-105))
  /\ (term_exceeds 24 128 (sin_thresh_claimed 24 128 input)
        (taylor_runs 24 128 3 x sin0) = false
      /\ term_exceeds 24 128 (sin_thresh 24 128 input)
           (taylor_runs 24 128 3 x sin0) = true
      /\ sin_taylor_run 24 128 15 input
         = Some (st_s (taylor_runs 24 128 6 x sin0), 6%nat))
  /\ (term_exceeds 24 128 (cos_thresh_claimed 24 128)
        (taylor_runs 24 128 2 x cos0) = false
      /\ term_exceeds 24 128 (cos_thresh 24 128)
           (taylor_runs 24 128 2 x cos0) = true
      /\ cos_taylor_run 24 128 15 input
         = Some (st_s (taylor_runs 24 128 5 x cos0), 5%nat)).
Proof.
  evaluate.
Qed.

(** Claim C9, as amended.  In every format [T], the loop of [sin_taylor]
    is governed by the threshold [pointfive * |input.eval()| * _eps] and
    the loop of [cos_taylor] by [pointfive * _eps], where [_eps] is the one
    constant that the code shares between the formats and documents as
    [2^-104]: on an input that does not evaluate to zero, a kernel that
    returns after [n] bodies returns the sum after [n] bodies; after each
    body before the last the index was inside the table and the evaluated
    term was above the threshold; and after the last body the term is not
    above the threshold, unless the index has left the table.  The constant
    does not follow the machine epsilon of [T]: for [float] it is [2^-104],
    while the square of the machine epsilon of [float] is [2^-46]. *)
Theorem taylor_thresholds (prec emax : Z) (fuel : nat) (input : two) :
  feq (eval prec emax input) zeropointzero = false ->
  let x := neg_two (sqr prec emax input) in
  let sin_th :=
    fmul prec emax
      (fmul prec emax (pointfive prec emax) (fabs (eval prec emax input)))
      (_eps prec emax) in
  let cos_th := fmul prec emax (pointfive prec emax) (_eps prec emax) in
  let sin0 := mk_state 0 input input zero_dw in
  let cos0 :=
    mk_state 1 x
      (add_fp_dw prec emax (onepointzero prec emax)
         (mul_pwr2 prec emax x (pointfive prec emax))) zero_dw in
  (forall s n,
      sin_taylor_run prec emax fuel input = Some (s, n) ->
      (1 <= n)%nat
      /\ s = st_s (taylor_runs prec emax n x sin0)
      /\ (forall k, (1 <= k < n)%nat ->
            2 * Z.of_nat k < n_inv_fact
            /\ term_exceeds prec emax sin_th (taylor_runs prec emax k x sin0)
               = true)
      /\ (2 * Z.of_nat n < n_inv_fact ->
          term_exceeds prec emax sin_th (taylor_runs prec emax n x sin0)
          = false))
  /\ (forall s n,
         cos_taylor_run prec emax fuel input = Some (s, n) ->
         (1 <= n)%nat
         /\ s = st_s (taylor_runs prec emax n x cos0)
         /\ (forall k, (1 <= k < n)%nat ->
               1 + 2 * Z.of_nat k < n_inv_fact
               /\ term_exceeds prec emax cos_th (taylor_runs prec emax k x cos0)
                  = true)
         /\ (1 + 2 * Z.of_nat n < n_inv_fact ->
             term_exceeds prec emax cos_th (taylor_runs prec emax n x cos0)
             = false))
  /\ _eps 24 128 = F32 1 (-104)
  /\ eps_squared 24 128 = F32 1 (-46).
Proof.
  intros Hz. cbv zeta. split; [|split; [|split; reflexivity]].
  - intros s n. unfold sin_taylor_run. rewrite Hz.
    destruct (taylor_loop prec emax fuel _ _ _) as [[st' m]|] eqn:He;
      [|discriminate].
    intros [= <- <-].
    destruct (taylor_loop_threshold prec emax _ _ _ _ _ _ He)
      as (Hn & Hst & Hbefore & Hexit).
    split; [exact Hn|]. split; [now rewrite Hst|].
    split; [exact Hbefore|exact Hexit].
  - intros s n. unfold cos_taylor_run. rewrite Hz.
    destruct (taylor_loop prec emax fuel _ _ _) as [[st' m]|] eqn:He;
      [|discriminate].
    intros [= <- <-].
    destruct (taylor_loop_threshold prec emax _ _ _ _ _ _ He)
      as (Hn & Hst & Hbefore & Hexit).
    split; [exact Hn|]. split; [now rewrite Hst|].
    split; [exact Hbefore|exact Hexit].
Qed.

(** [sin_taylor] and [cos_taylor] at [two<double>{2^-12, 0}]: the sine
    leaves after 4 bodies and the cosine after 3, both on the threshold
    test. *)
Lemma taylor_thresholds_witness :
  let input := mk_two (F64 1 (-12)) zeropointzero in
  let x := neg_two (sqr 53 1024 input) in
  let sin0 := mk_state 0 input input zero_dw in
  let cos0 :=
    mk_state 1 x
      (add_fp_dw 53 1024 (onepointzero 53 1024)
         (mul_pwr2 53 1024 x (pointfive 53 1024))) zero_dw in
  feq (eval 53 1024 input) zeropointzero = false
  /\ (exists s,
         sin_taylor_run 53 1024 15 input = Some (s, 4%nat)
         /\ s = st_s (taylor_runs 53 1024 4 x sin0)
         /\ term_exceeds 53 1024 (sin_thresh 53 1024 input)
              (taylor_runs 53 1024 3 x sin0) = true
         /\ term_exceeds 53 1024 (sin_thresh 53 1024 input)
              (taylor_runs 53 1024 4 x sin0) = false)
  /\ (exists s,
         cos_taylor_run 53 1024 15 input = Some (s, 3%nat)
         /\ s = st_s (taylor_runs 53 1024 3 x cos0)
         /\ term_exceeds 53 1024 (cos_thresh 53 1024)
              (taylor_runs 53 1024 2 x cos0) = true
         /\ term_exceeds 53 1024 (cos_thresh 53 1024)
              (taylor_runs 53 1024 3 x cos0) = false).
Proof.
  cbv zeta. split; [reflexivity|].
  destruct (taylor_thresholds 53 1024 15
              (mk_two (F64 1 (-12)) zeropointzero) eq_refl)
    as (Hsin & Hcos & _).
  split.
  - destruct (sin_taylor_run 53 1024 15 (mk_two (F64 1 (-12)) zeropointzero))
      as [[s n]|] eqn:He; [|vm_compute in He; discriminate].
    assert (Hn : n = 4%nat) by (vm_compute in He; congruence).
    subst n. exists s. split; [reflexivity|].
    destruct (Hsin s 4%nat eq_refl) as (_ & Hs & Hbefore & Hexit).
    split; [exact Hs|]. split.
    + apply (Hbefore 3%nat). split; [apply le_S, le_S, le_n|apply le_n].
    + apply Hexit. reflexivity.
  - destruct (cos_taylor_run 53 1024 15 (mk_two (F64 1 (-12)) zeropointzero))
      as [[s n]|] eqn:He; [|vm_compute in He; discriminate].
    assert (Hn : n = 3%nat) by (vm_compute in He; congruence).
    subst n. exists s. split; [reflexivity|].
    destruct (Hcos s 3%nat eq_refl) as (_ & Hs & Hbefore & Hexit).
    split; [exact Hs|]. split.
    + apply (Hbefore 2%nat). split; [apply le_S, le_n|apply le_n].
    + apply Hexit. reflexivity.
Defined.

Section SeriesBounds.
Local Open Scope R_scope.

Lemma sin_series_upper (a : R) :
  0 <= a -> a <= 1 -> Rtrigo_def.sin a <= a - a ^ 3 / 6 + a ^ 5 / 120.
Proof.
  intros H0 H1.
  assert (Hpi : a <= PI) by (pose proof PI2_1; lra).
  destruct (sin_bound a 0 H0 Hpi) as [_ Hub].
  unfold sin_approx, sin_term in Hub. cbn [sum_f_R0 Nat.mul Nat.add] in Hub.
  rewrite !INR_IZR_INZ in Hub.
  change (Z.of_nat (fact 1)) with 1%Z in Hub.
  change (Z.of_nat (fact 3)) with 6%Z in Hub.
  change (Z.of_nat (fact 5)) with 120%Z in Hub.
  lra.
Qed.

Lemma cos_series_lower (a : R) :
  0 <= a -> a <= 1 ->
  1 - a ^ 2 / 2 + a ^ 4 / 24 - a ^ 6 / 720 <= Rtrigo_def.cos a.
Proof.
  intros H0 H1.
  assert (Hlo : - PI / 2 <= a) by (pose proof PI2_1; lra).
  assert (Hup : a <= PI / 2) by (pose proof PI2_1; lra).
  destruct (cos_bound a 1 Hlo Hup) as [Hlb _].
  unfold cos_approx, cos_term in Hlb. cbn [sum_f_R0 Nat.mul Nat.add] in Hlb.
  rewrite !INR_IZR_INZ in Hlb.
  change (Z.of_nat (fact 0)) with 1%Z in Hlb.
  change (Z.of_nat (fact 2)) with 2%Z in Hlb.
  change (Z.of_nat (fact 4)) with 24%Z in Hlb.
  change (Z.of_nat (fact 6)) with 720%Z in Hlb.
  lra.
Qed.

End SeriesBounds.

(** Claim C1 does not hold of the code.  Row [k] of [inv_fact] holds
    [1/(k+3)!].  The kernels index the table through a pointer to its first
    number and step it by 2 numbers, that is by one row: run [n] of the sine
    loop reads row [n], the coefficient [1/(n+3)!], where the series needs
    row [2n], the coefficient [1/(2n+3)!]; the cosine loop starts at the
    odd offset 1 and reads the low word of one row together with the high
    word of the next.  At [x = 1/16], which is below [pi/32], the sine
    kernel is more than [2^-25] above [sin x] and the cosine kernel more
    than [2^-32] below [cos x]. *)
Theorem taylor_kernels_read_wrong_entries :
  let x := mk_two (F64 1 (-4)) zeropointzero in
  map (fun k => h (row (inv_fact 53 1024) k)) (seq 0 15)
  = map (fun k => fdiv 53 1024 (F64 1 0) (F64 (factorial (k + 3)) 0)) (seq 0 15)
  /\ (forall prec emax,
         map (taylor_entry prec emax 0) (seq 0 8)
         = map (row (inv_fact prec emax)) (seq 0 8))
  /\ (forall prec emax,
         map (taylor_entry prec emax 1) (seq 0 7)
         = map (fun n => mk_two (l (row (inv_fact prec emax) n))
                                (h (row (inv_fact prec emax) (S n)))) (seq 0 7))
  /\ taylor_entry 53 1024 0 1 <> row (inv_fact 53 1024) (sin_row_claimed 1)
  /\ taylor_entry 53 1024 1 0 <> row (inv_fact 53 1024) (cos_row_claimed 0)
  /\ SFleb (fabs (eval 53 1024 x))
           (eval 53 1024 (mul_pwr2 53 1024 (_pi16 53 1024) (pointfive 53 1024)))
     = true
  /\ value x = (1 / 16)%R
  /\ (value (sin_taylor 53 1024 x) - Rtrigo_def.sin (1 / 16) > 1 / 2 ^ 25)%R
  /\ (Rtrigo_def.cos (1 / 16) - value (cos_taylor 53 1024 x) > 1 / 2 ^ 32)%R.
Proof.
  cbv zeta.
  split; [vm_compute; reflexivity|].
  split; [exact sin_entries|].
  split; [exact cos_entries|].
  split; [vm_compute; discriminate|].
  split; [vm_compute; discriminate|].
  split; [vm_compute; reflexivity|].
  split.
  { change (F64 1 (-4)) with (S754_finite false 4503599627370496 (-56)).
    unfold value, SF2R, zeropointzero. cbn [h l Z.leb Z.compare cond_Zopp].
    change (2 ^ (- -56))%Z with 72057594037927936%Z. lra. }
  split.
  - assert (Hv : sin_taylor 53 1024 (mk_two (F64 1 (-4)) zeropointzero)
                 = mk_two (S754_finite false 9001340914878235 (-57))
                          (S754_finite true 6490914725948516 (-112)))
      by (vm_compute; reflexivity).
    rewrite Hv. unfold value, SF2R. cbn [h l Z.leb Z.compare cond_Zopp Z.opp].
    change (2 ^ (- -57))%Z with 144115188075855872%Z.
    change (2 ^ (- -112))%Z with 5192296858534827628530496329220096%Z.
    assert (Ha : (0 <= 1 / 16)%R) by lra.
    assert (Hb : (1 / 16 <= 1)%R) by lra.
    pose proof (sin_series_upper (1 / 16) Ha Hb). lra.
  - assert (Hv : cos_taylor 53 1024 (mk_two (F64 1 (-4)) zeropointzero)
                 = mk_two (S754_finite false 8989612790848624 (-53))
                          (S754_finite false 5518707155567988 (-108)))
      by (vm_compute; reflexivity).
    rewrite Hv. unfold value, SF2R. cbn [h l Z.leb Z.compare cond_Zopp Z.opp].
    change (2 ^ (- -53))%Z with 9007199254740992%Z.
    change (2 ^ (- -108))%Z with 324518553658426726783156020576256%Z.
    assert (Ha : (0 <= 1 / 16)%R) by lra.
    assert (Hb : (1 / 16 <= 1)%R) by lra.
    pose proof (cos_series_lower (1 / 16) Ha Hb). lra.
Qed.

(** ** The error returns of [sin] *)

Section SinErrors.
Variables prec emax : Z.

Lemma sin_of_zero (input : two) :
  feq (eval prec emax input) zeropointzero = true ->
  sin prec emax input = zero_dw.
Proof. unfold sin. now intros ->. Qed.

(** A reduction whose [j] is outside [[-2, 2]], or whose [abs_k] is above
    4, ends in the NaN pair. *)
Lemma sin_reduction_failure (input : two) :
  feq (eval prec emax input) zeropointzero = false ->
  red_j (reduce prec emax input) < -2
  \/ 2 < red_j (reduce prec emax input)
  \/ 4 < int_abs (red_k (reduce prec emax input)) ->
  sin prec emax input = nan_pair.
Proof.
  intros Hz Hred. unfold sin. rewrite Hz.
  destruct Hred as [Hj|[Hj|Hk]].
  - apply Z.ltb_lt in Hj. now rewrite Hj.
  - apply Z.ltb_lt in Hj. rewrite Hj, orb_true_r. reflexivity.
  - apply Z.ltb_lt in Hk. rewrite Hk.
    now destruct (_ || _).
Qed.

End SinErrors.

(** [sin(5.0)]: the remainder modulo [2 pi] is 5 itself, [j] is 3, and the
    result is the NaN pair. *)
Example sin_of_five :
  let input := mk_two (F64 5 0) zeropointzero in
  red_j (reduce 53 1024 input) = 3
  /\ sin 53 1024 input = nan_pair.
Proof. cbv zeta. split; reflexivity. Qed.

(** [sin(1.0)] goes through the table: [j = 1], [k = -3]. *)
Example sin_of_one :
  let input := mk_two (F64 1 0) zeropointzero in
  red_j (reduce 53 1024 input) = 1
  /\ red_k (reduce 53 1024 input) = -3
  /\ h (sin 53 1024 input) = F64 7579296827576500 (-53).
Proof. cbv zeta. repeat split; reflexivity. Qed.

(** * Further properties of the kernel and of the transcendental layer *)

(** ** NaN operands *)

Section NaNPropagation.
Variables prec emax : Z.

Lemma fadd_nan_l (b : spec_float) : fadd prec emax S754_nan b = S754_nan.
Proof. reflexivity. Qed.

Lemma fadd_nan_r (a : spec_float) : fadd prec emax a S754_nan = S754_nan.
Proof. now destruct a. Qed.

Lemma fsub_nan_l (b : spec_float) : fsub prec emax S754_nan b = S754_nan.
Proof. reflexivity. Qed.

Lemma fsub_nan_r (a : spec_float) : fsub prec emax a S754_nan = S754_nan.
Proof. now destruct a. Qed.

Lemma fmul_nan_l (b : spec_float) : fmul prec emax S754_nan b = S754_nan.
Proof. reflexivity. Qed.

Lemma fmul_nan_r (a : spec_float) : fmul prec emax a S754_nan = S754_nan.
Proof. now destruct a. Qed.

Lemma fdiv_nan_l (b : spec_float) : fdiv prec emax S754_nan b = S754_nan.
Proof. reflexivity. Qed.

Lemma fdiv_nan_r (a : spec_float) : fdiv prec emax a S754_nan = S754_nan.
Proof. now destruct a. Qed.

Lemma fma_nan_1 (y z : spec_float) : fma prec emax S754_nan y z = S754_nan.
Proof. reflexivity. Qed.

Lemma fma_nan_2 (x z : spec_float) : fma prec emax x S754_nan z = S754_nan.
Proof. now destruct x. Qed.

Lemma fma_nan_3 (x y : spec_float) : fma prec emax x y S754_nan = S754_nan.
Proof.
  unfold fma, ffma.
  destruct x, y; try reflexivity;
    match goal with
    | |- SFadd _ _ ?a S754_nan = _ => now destruct a
    end.
Qed.

Lemma TwoSum_nan_l (b : spec_float) : TwoSum prec emax S754_nan b = nan_pair.
Proof. reflexivity. Qed.

Lemma TwoSum_nan_r (a : spec_float) : TwoSum prec emax a S754_nan = nan_pair.
Proof. unfold TwoSum. rewrite fadd_nan_r, fsub_nan_l, fsub_nan_r. reflexivity. Qed.

Lemma TwoDiff_nan_l (b : spec_float) : TwoDiff prec emax S754_nan b = nan_pair.
Proof. reflexivity. Qed.

Lemma TwoDiff_nan_r (a : spec_float) : TwoDiff prec emax a S754_nan = nan_pair.
Proof. unfold TwoDiff. apply TwoSum_nan_r. Qed.

Lemma FastTwoSum_nan_l (b : spec_float) :
  FastTwoSum prec emax S754_nan b = nan_pair.
Proof.
  unfold FastTwoSum. rewrite fadd_nan_l, fsub_nan_l, fsub_nan_r. reflexivity.
Qed.

Lemma FastTwoSum_nan_r (a : spec_float) :
  FastTwoSum prec emax a S754_nan = nan_pair.
Proof.
  unfold FastTwoSum. rewrite fadd_nan_r, fsub_nan_l. reflexivity.
Qed.

Lemma Fast2Prod_nan_l (b : spec_float) :
  Fast2Prod prec emax S754_nan b = nan_pair.
Proof. reflexivity. Qed.

Lemma Fast2Prod_nan_r (a : spec_float) :
  Fast2Prod prec emax a S754_nan = nan_pair.
Proof.
  unfold Fast2Prod. rewrite fmul_nan_r, fma_nan_2. reflexivity.
Qed.

(** The high word of [TwoProd] is the native product in both
    realisations. *)
Lemma TwoProd_high (useFMA : bool) (a b : spec_float) :
  h (TwoProd prec emax useFMA a b) = fmul prec emax a b.
Proof. now destruct useFMA. Qed.

(** A NaN product has a NaN residual in both realisations. *)
Lemma TwoProd_nan (useFMA : bool) (a b : spec_float) :
  fmul prec emax a b = S754_nan -> TwoProd prec emax useFMA a b = nan_pair.
Proof.
  intros Hp. unfold TwoProd, Fast2Prod. rewrite Hp.
  destruct useFMA.
  - cbn [fneg SFopp]. now rewrite fma_nan_3.
  - rewrite fsub_nan_r. reflexivity.
Qed.

Lemma Fast2Prod_nan (a b : spec_float) :
  fmul prec emax a b = S754_nan -> Fast2Prod prec emax a b = nan_pair.
Proof. apply (TwoProd_nan true). Qed.

Lemma TwoProd_nan_l (useFMA : bool) (b : spec_float) :
  TwoProd prec emax useFMA S754_nan b = nan_pair.
Proof. apply TwoProd_nan. apply fmul_nan_l. Qed.

Lemma TwoProd_nan_r (useFMA : bool) (a : spec_float) :
  TwoProd prec emax useFMA a S754_nan = nan_pair.
Proof. apply TwoProd_nan. apply fmul_nan_r. Qed.

End NaNPropagation.

Create Rewrite HintDb nan.

#[local] Hint Rewrite
  fadd_nan_l fadd_nan_r fsub_nan_l fsub_nan_r fmul_nan_l fmul_nan_r
  fdiv_nan_l fdiv_nan_r fma_nan_1 fma_nan_2 fma_nan_3
  TwoSum_nan_l TwoSum_nan_r TwoDiff_nan_l TwoDiff_nan_r
  FastTwoSum_nan_l FastTwoSum_nan_r Fast2Prod_nan_l Fast2Prod_nan_r
  TwoProd_nan_l TwoProd_nan_r : nan.

(** Unfold the double-word operations of a goal and push the NaN through. *)
Ltac push_nan :=
  cbn [h l nan_pair _nan fneg SFopp];
  repeat (autorewrite with nan; cbn [h l nan_pair _nan fneg SFopp]);
  try reflexivity.

(** A NaN in the high word of either operand makes every double-word
    addition, subtraction and multiplication return the NaN pair, whatever
    the other words are. *)
Theorem nan_operand_gives_nan_pair (prec emax : Z) (x : two) (lo : spec_float) :
  let n := mk_two S754_nan lo in
  (add_sloppy prec emax n x = nan_pair /\ add_sloppy prec emax x n = nan_pair)
  /\ (add_accurate prec emax n x = nan_pair
      /\ add_accurate prec emax x n = nan_pair)
  /\ (sub_sloppy prec emax n x = nan_pair /\ sub_sloppy prec emax x n = nan_pair)
  /\ (sub_accurate prec emax n x = nan_pair
      /\ sub_accurate prec emax x n = nan_pair)
  /\ (mul_fast prec emax n x = nan_pair /\ mul_fast prec emax x n = nan_pair)
  /\ (mul_fast_fma prec emax n x = nan_pair
      /\ mul_fast_fma prec emax x n = nan_pair)
  /\ (mul_accurate_fma prec emax n x = nan_pair
      /\ mul_accurate_fma prec emax x n = nan_pair).
Proof.
  cbv zeta.
  repeat split;
    unfold add_sloppy, add_accurate, sub_sloppy, sub_accurate, mul_fast,
      mul_fast_fma, mul_accurate_fma;
    push_nan.
Qed.

(** ** Division by zero *)

Section DivisionByZero.
Variables prec emax : Z.

Lemma fmul_quotient_by_zero_l (a : spec_float) (s s' : bool) :
  fmul prec emax (fdiv prec emax a (S754_zero s)) (S754_zero s') = S754_nan.
Proof. now destruct a. Qed.

Lemma fmul_quotient_by_zero_r (a : spec_float) (s s' : bool) :
  fmul prec emax (S754_zero s') (fdiv prec emax a (S754_zero s)) = S754_nan.
Proof. now destruct a. Qed.

Lemma div_dw_fp_by_zero (useFMA : bool) (x : two) (s : bool) :
  div_dw_fp prec emax useFMA x (S754_zero s) = nan_pair.
Proof.
  unfold div_dw_fp.
  rewrite (TwoProd_nan prec emax useFMA _ _
             (fmul_quotient_by_zero_l (h x) s s)).
  push_nan.
Qed.

Lemma div_fast_by_zero (useFMA : bool) (x : two) (s : bool) (ly : spec_float) :
  div_fast prec emax useFMA x (mk_two (S754_zero s) ly) = nan_pair.
Proof.
  unfold div_fast, mul_dw_fp_fma, mul_dw_fp_accurate. cbn [h l].
  rewrite (TwoProd_nan prec emax false _ _
             (fmul_quotient_by_zero_r (h x) s s)).
  rewrite (Fast2Prod_nan prec emax _ _ (fmul_quotient_by_zero_r (h x) s s)).
  destruct useFMA; push_nan.
Qed.

Lemma div_accurate_by_zero (x : two) (s : bool) (ly : spec_float) :
  div_accurate prec emax x (mk_two (S754_zero s) ly) = nan_pair.
Proof.
  unfold div_accurate. cbn [h l]. rewrite fmul_quotient_by_zero_r.
  unfold mul_dw_fp_fma, add_dw_fp, mul_fast_fma. push_nan.
Qed.

End DivisionByZero.

(** Dividing by zero never gives an infinity: for every dividend, the
    quotient by a native zero, and by a double-word whose high word is a
    zero, is the NaN pair, in every instantiation of [div]. *)
Theorem division_by_zero_gives_nan_pair (prec emax : Z) (x : two) (s : bool)
  (ly : spec_float) :
  (forall useFMA, div_dw_fp prec emax useFMA x (S754_zero s) = nan_pair)
  /\ (forall useFMA,
         div prec emax Fast useFMA x (mk_two (S754_zero s) ly) = Some nan_pair)
  /\ div prec emax Accurate true x (mk_two (S754_zero s) ly) = Some nan_pair.
Proof.
  split; [|split].
  - intros useFMA. apply div_dw_fp_by_zero.
  - intros useFMA. cbn [div]. now rewrite div_fast_by_zero.
  - cbn [div]. now rewrite div_accurate_by_zero.
Qed.

(** ** Infinite and zero operands *)

(** Case analysis over the operands of a closed double-word expression:
    no rounding takes place when an operand is a zero, an infinity or a
    NaN, so every case evaluates. *)
Ltac by_cases :=
  intros;
  repeat match goal with x : two |- _ => destruct x end;
  repeat match goal with a : spec_float |- _ => destruct a end;
  repeat match goal with b : bool |- _ => destruct b end;
  cbn in *; try discriminate; try reflexivity.

Section SpecialOperands.
Variables prec emax : Z.

Lemma fmul_quotient_by_infinity_l (a : spec_float) (s s' : bool) :
  fmul prec emax (fdiv prec emax a (S754_infinity s)) (S754_infinity s')
  = S754_nan.
Proof. now destruct a. Qed.

Lemma fmul_quotient_by_infinity_r (a : spec_float) (s s' : bool) :
  fmul prec emax (S754_infinity s') (fdiv prec emax a (S754_infinity s))
  = S754_nan.
Proof. now destruct a. Qed.

Lemma div_dw_fp_by_infinity (useFMA : bool) (x : two) (s : bool) :
  div_dw_fp prec emax useFMA x (S754_infinity s) = nan_pair.
Proof.
  unfold div_dw_fp.
  rewrite (TwoProd_nan prec emax useFMA _ _
             (fmul_quotient_by_infinity_l (h x) s s)).
  push_nan.
Qed.

Lemma div_fast_by_infinity (useFMA : bool) (x : two) (s : bool)
  (ly : spec_float) :
  div_fast prec emax useFMA x (mk_two (S754_infinity s) ly) = nan_pair.
Proof.
  unfold div_fast, mul_dw_fp_fma, mul_dw_fp_accurate. cbn [h l].
  rewrite (TwoProd_nan prec emax false _ _
             (fmul_quotient_by_infinity_r (h x) s s)).
  rewrite (Fast2Prod_nan prec emax _ _
             (fmul_quotient_by_infinity_r (h x) s s)).
  destruct useFMA; push_nan.
Qed.

Lemma div_accurate_by_infinity (x : two) (s : bool) (ly : spec_float) :
  div_accurate prec emax x (mk_two (S754_infinity s) ly) = nan_pair.
Proof.
  unfold div_accurate. cbn [h l].
  destruct (onepointzero prec emax); by_cases.
Qed.

Lemma mul_dw_fp_fma_infinity (x : two) (s : bool) :
  mul_dw_fp_fma prec emax x (S754_infinity s) = nan_pair.
Proof. by_cases. Qed.

Lemma mul_fast_fma_infinity (x : two) (s : bool) (lo : spec_float) :
  mul_fast_fma prec emax x (mk_two (S754_infinity s) lo) = nan_pair
  /\ mul_fast_fma prec emax (mk_two (S754_infinity s) lo) x = nan_pair.
Proof. split; by_cases. Qed.

Lemma mul_accurate_fma_infinity (x : two) (s : bool) (lo : spec_float) :
  mul_accurate_fma prec emax x (mk_two (S754_infinity s) lo) = nan_pair
  /\ mul_accurate_fma prec emax (mk_two (S754_infinity s) lo) x = nan_pair.
Proof. split; by_cases. Qed.

Lemma mul_dw_fp_zero (x : two) (s : bool) :
  finite_dw x = true ->
  mul_dw_fp_fma prec emax x (S754_zero s) = zero_dw.
Proof. by_cases. Qed.

Lemma mul_dw_zero (x : two) (sh sl : bool) :
  finite_dw x = true ->
  mul_fast_fma prec emax x (mk_two (S754_zero sh) (S754_zero sl)) = zero_dw
  /\ mul_accurate_fma prec emax x (mk_two (S754_zero sh) (S754_zero sl))
     = zero_dw.
Proof. intros H. repeat split; revert H; by_cases. Qed.

Lemma div_zero_dividend (sh sl : bool) (y : spec_float) :
  is_finite y = true -> is_zero y = false ->
  let q := div_dw_fp prec emax true (mk_two (S754_zero sh) (S754_zero sl)) y in
  is_zero (h q) = true /\ is_zero (l q) = true.
Proof. cbv zeta. split; by_cases. Qed.

End SpecialOperands.

(** An infinite divisor gives the NaN pair for every dividend, in every
    instantiation of [div] (the native quotient [x.h / y] is a zero there,
    and its product with the divisor is a NaN); an infinite factor gives
    the NaN pair in the multiplications that use the fused multiply-add
    (the residual [fma(a, b, -prod)] of an infinite product is a NaN). *)
Theorem infinite_operand_gives_nan_pair (prec emax : Z) (x : two) (s : bool)
  (lo : spec_float) :
  let inf := mk_two (S754_infinity s) lo in
  (forall useFMA, div_dw_fp prec emax useFMA x (S754_infinity s) = nan_pair)
  /\ (forall useFMA, div prec emax Fast useFMA x inf = Some nan_pair)
  /\ div prec emax Accurate true x inf = Some nan_pair
  /\ (forall p, mul_dw_fp prec emax p true x (S754_infinity s) = Some nan_pair
                \/ p = Sloppy)
  /\ (mul prec emax Fast true x inf = Some nan_pair
      /\ mul prec emax Fast true inf x = Some nan_pair)
  /\ (mul prec emax Accurate true x inf = Some nan_pair
      /\ mul prec emax Accurate true inf x = Some nan_pair).
Proof.
  cbv zeta. split; [|split; [|split; [|split; [|split]]]].
  - intros useFMA. apply div_dw_fp_by_infinity.
  - intros useFMA. cbn [div]. now rewrite div_fast_by_infinity.
  - cbn [div]. now rewrite div_accurate_by_infinity.
  - intros [| |]; cbn [mul_dw_fp]; [left|left|now right];
      now rewrite mul_dw_fp_fma_infinity.
  - cbn [mul]. destruct (mul_fast_fma_infinity prec emax x s lo) as [-> ->].
    now split.
  - cbn [mul]. destruct (mul_accurate_fma_infinity prec emax x s lo) as [-> ->].
    now split.
Qed.

(** With the fused multiply-add, the product of a finite double-word and
    a zero, native or double-word and of either sign, is [(+0, +0)], in the
    [Fast] and in the [Accurate] instantiation of [mul].  (Without it the
    residual of the product goes through [Split], which overflows on a large
    operand: see [split_product_with_zero_overflows].) *)
Theorem product_with_zero (prec emax : Z) (x : two) (s s' : bool) :
  finite_dw x = true ->
  let z := mk_two (S754_zero s) (S754_zero s') in
  (forall p,
      mul_dw_fp prec emax p true x (S754_zero s) = Some zero_dw \/ p = Sloppy)
  /\ mul prec emax Fast true x z = Some zero_dw
  /\ mul prec emax Accurate true x z = Some zero_dw.
Proof.
  intros Hx. cbv zeta.
  pose proof (mul_dw_fp_zero prec emax x s Hx) as H1.
  destruct (mul_dw_zero prec emax x s s' Hx) as (H4 & H5).
  split; [|split].
  - intros [| |]; cbn [mul_dw_fp]; rewrite ?H1; auto.
  - cbn [mul]. now rewrite H4.
  - cbn [mul]. now rewrite H5.
Qed.

(** [two<double>{3.0, 2^-60}] times [-0.0] and times [(+0.0, -0.0)]. *)
Lemma product_with_zero_witness :
  let x := mk_two (F64 3 0) (F64 1 (-60)) in
  finite_dw x = true
  /\ mul_dw_fp 53 1024 Accurate true x (S754_zero true) = Some zero_dw
  /\ mul 53 1024 Accurate true x (mk_two (S754_zero false) (S754_zero true))
     = Some zero_dw.
Proof.
  cbv zeta. split; [reflexivity|].
  pose proof (product_with_zero 53 1024 (mk_two (F64 3 0) (F64 1 (-60)))
                true true eq_refl) as Hn.
  pose proof (product_with_zero 53 1024 (mk_two (F64 3 0) (F64 1 (-60)))
                false true eq_refl) as Hd.
  cbv zeta in Hn, Hd. split.
  - destruct (proj1 Hn Accurate) as [H|H]; [exact H|discriminate].
  - exact (proj2 (proj2 Hd)).
Defined.

(** Without the fused multiply-add the products and the quotient above are
    not zeros for every finite operand: [Split(2^1000)] overflows in
    [splitter * x], its high half is [inf - inf], and the NaN reaches both
    words of the result. *)
Example split_product_with_zero_overflows :
  let big := mk_two (F64 1 1000) (S754_zero false) in
  finite_dw big = true
  /\ Split 53 1024 (F64 1 1000) = nan_pair
  /\ mul_dw_fp 53 1024 Fast false big (S754_zero false) = Some nan_pair
  /\ mul_dw_fp 53 1024 Accurate false big (S754_zero false) = Some nan_pair
  /\ mul 53 1024 Fast false big zero_dw = Some nan_pair
  /\ div_dw_fp 53 1024 false zero_dw (F64 1 1000) = nan_pair.
Proof. cbv zeta. repeat split; vm_compute; reflexivity. Qed.

(** With the fused multiply-add, a zero double-word divided by a finite
    native value other than zero is a zero double-word: both words of the
    quotient are zeros. *)
Theorem zero_dividend_gives_zero (prec emax : Z)
  (sh sl : bool) (y : spec_float) :
  is_finite y = true -> is_zero y = false ->
  let q := div_dw_fp prec emax true (mk_two (S754_zero sh) (S754_zero sl)) y in
  is_zero (h q) = true /\ is_zero (l q) = true.
Proof. apply div_zero_dividend. Qed.

(** [(+0.0, +0.0) / -3.0]. *)
Lemma zero_dividend_gives_zero_witness :
  is_finite (F64 (-3) 0) = true /\ is_zero (F64 (-3) 0) = false
  /\ is_zero (h (div_dw_fp 53 1024 true zero_dw (F64 (-3) 0))) = true
  /\ is_zero (l (div_dw_fp 53 1024 true zero_dw (F64 (-3) 0))) = true.
Proof.
  split; [reflexivity|]. split; [reflexivity|].
  exact (zero_dividend_gives_zero 53 1024 false false (F64 (-3) 0)
           eq_refl eq_refl).
Defined.

(** ** Cancellation *)

Section Subtraction.
Variables prec emax : Z.

Lemma fsub_fadd_opp (a b : spec_float) :
  fsub prec emax a b = fadd prec emax a (fneg b).
Proof.
  unfold fsub, fadd, fneg, SFsub, SFadd, SFopp.
  destruct a as [sa|sa| |sa ma ea], b as [sb|sb| |sb mb eb];
    try reflexivity; destruct sa, sb; reflexivity.
Qed.

Lemma fadd_opp_diag (a : spec_float) :
  is_finite a = true -> fadd prec emax a (fneg a) = zeropointzero.
Proof.
  unfold fadd, fneg, SFadd, SFopp, zeropointzero.
  destruct a as [[|]| | |s m e]; cbn [is_finite]; intros H;
    try reflexivity; try discriminate.
  cbv zeta.
  replace (cond_Zopp s (Z.pos (fst (shl_align m e (Z.min e e))))
           + cond_Zopp (negb s) (Z.pos (fst (shl_align m e (Z.min e e)))))
    with 0 by (destruct s; cbn [negb cond_Zopp]; lia).
  reflexivity.
Qed.

Lemma fsub_diag_finite (a : spec_float) :
  is_finite a = true -> fsub prec emax a a = zeropointzero.
Proof.
  intros Ha. rewrite fsub_fadd_opp. now apply fadd_opp_diag.
Qed.

(** The six operations of [TwoSum] on [a] and [-a]: the sum is [+0], the
    two recovered operands are [a] and [-a] themselves (or [+0] for a zero),
    and both corrections cancel. *)
Lemma TwoDiff_diag (a : spec_float) :
  is_finite a = true -> TwoDiff prec emax a a = zero_dw.
Proof.
  intros Ha. unfold TwoDiff, TwoSum.
  rewrite (fadd_opp_diag a Ha).
  destruct a as [[|]| | |s m e]; try discriminate; try reflexivity.
  assert (E1 : fsub prec emax zeropointzero (fneg (S754_finite s m e))
               = S754_finite s m e) by (destruct s; reflexivity).
  assert (E2 : fsub prec emax zeropointzero (S754_finite s m e)
               = fneg (S754_finite s m e)) by reflexivity.
  rewrite E1, E2.
  rewrite (fsub_diag_finite (S754_finite s m e) eq_refl).
  rewrite (fsub_diag_finite (fneg (S754_finite s m e)) eq_refl).
  reflexivity.
Qed.

End Subtraction.

(** A finite double-word minus itself, and plus its negation, is
    [(+0, +0)] in both modes, whether it is normalised or not. *)
Theorem sub_self_is_zero (prec emax : Z) (mode : Mode) (x : two) :
  mode <> Fast -> finite_dw x = true ->
  sub prec emax mode x x = Some zero_dw
  /\ add prec emax mode x (neg_two x) = Some zero_dw.
Proof.
  intros Hm Hx. apply andb_true_iff in Hx. destruct Hx as [Hh Hl].
  pose proof (TwoDiff_diag prec emax _ Hh) as Eh.
  pose proof (TwoDiff_diag prec emax _ Hl) as El.
  pose proof (fsub_diag_finite prec emax _ Hl) as Es.
  pose proof (fadd_opp_diag prec emax _ Hl) as Ea.
  unfold TwoDiff in Eh, El.
  destruct mode; [now elim Hm| |]; cbn [sub add]; split; f_equal.
  - unfold sub_accurate, TwoDiff. rewrite Eh, El. reflexivity.
  - unfold add_accurate, neg_two. cbn [h l]. rewrite Eh, El. reflexivity.
  - unfold sub_sloppy, TwoDiff. rewrite Eh, Es. reflexivity.
  - unfold add_sloppy, neg_two. cbn [h l]. rewrite Eh, Ea. reflexivity.
Qed.

(** The un-normalised pair [two<double>{1.0, 3.0}]. *)
Lemma sub_self_is_zero_witness :
  let x := mk_two (F64 1 0) (F64 3 0) in
  finite_dw x = true
  /\ sub 53 1024 Accurate x x = Some zero_dw
  /\ add 53 1024 Sloppy x (neg_two x) = Some zero_dw.
Proof.
  cbv zeta. split; [reflexivity|]. split.
  - apply (sub_self_is_zero 53 1024 Accurate); [discriminate|reflexivity].
  - apply (sub_self_is_zero 53 1024 Sloppy); [discriminate|reflexivity].
Defined.

(** ** Square root of special values *)

Section SqrtSpecial.
Variables prec emax : Z.

Lemma dd_real_add_nan (c : spec_float) :
  dd_real_add prec emax S754_nan c = nan_pair.
Proof. reflexivity. Qed.

Lemma fmul_zero_inverse_root (a : spec_float) (s : bool) :
  fmul prec emax (S754_zero s)
    (fdiv prec emax a (fsqrt prec emax (S754_zero s))) = S754_nan.
Proof. now destruct a. Qed.

Lemma fmul_infinity_inverse_root (a : spec_float) :
  fmul prec emax (S754_infinity false)
    (fdiv prec emax a (fsqrt prec emax (S754_infinity false))) = S754_nan.
Proof. now destruct a. Qed.

Lemma sqrt_zero_high (s : bool) (lo : spec_float) :
  feq (eval prec emax (mk_two (S754_zero s) lo)) zeropointzero = false ->
  sqrt prec emax (mk_two (S754_zero s) lo) = nan_pair.
Proof.
  intros Hz. unfold sqrt. rewrite Hz. cbn [h flt SFltb SFcompare zeropointzero].
  unfold sqrt_ax, sqrt_seed. cbn [h].
  rewrite fmul_zero_inverse_root. apply dd_real_add_nan.
Qed.

Lemma sqrt_infinite_high (s : bool) (lo : spec_float) :
  sqrt prec emax (mk_two (S754_infinity s) lo) = nan_pair.
Proof.
  unfold sqrt.
  assert (Hz : feq (eval prec emax (mk_two (S754_infinity s) lo)) zeropointzero
               = false) by (destruct s, lo as [[|]|[|]| |]; reflexivity).
  rewrite Hz. destruct s; [reflexivity|].
  cbn [h flt SFltb SFcompare zeropointzero].
  unfold sqrt_ax, sqrt_seed. cbn [h].
  rewrite fmul_infinity_inverse_root. apply dd_real_add_nan.
Qed.

Lemma sqrt_nan_high (lo : spec_float) :
  sqrt prec emax (mk_two S754_nan lo) = nan_pair.
Proof. reflexivity. Qed.

End SqrtSpecial.

(** [sqrt] returns the NaN pair, and no infinity or zero, when the high
    word of its argument is an infinity of either sign or a NaN, and when
    the high word is a zero while the argument does not sum to zero: the
    seed [1 / std::sqrt(input.h)] is then zero or infinite and [ax] is a
    NaN. *)
Theorem sqrt_of_special_values (prec emax : Z) (s : bool) (lo : spec_float) :
  sqrt prec emax (mk_two (S754_infinity s) lo) = nan_pair
  /\ sqrt prec emax (mk_two S754_nan lo) = nan_pair
  /\ (feq (eval prec emax (mk_two (S754_zero s) lo)) zeropointzero = false ->
      sqrt prec emax (mk_two (S754_zero s) lo) = nan_pair).
Proof.
  split; [apply sqrt_infinite_high|].
  split; [apply sqrt_nan_high|apply sqrt_zero_high].
Qed.

(** [two<double>{0.0, 1.0}] stands for 1 and has a zero high word. *)
Lemma sqrt_of_special_values_witness :
  feq (eval 53 1024 (mk_two (S754_zero false) (F64 1 0))) zeropointzero = false
  /\ sqrt 53 1024 (mk_two (S754_zero false) (F64 1 0)) = nan_pair.
Proof.
  split; [reflexivity|].
  apply (proj2 (proj2 (sqrt_of_special_values 53 1024 false (F64 1 0)))).
  reflexivity.
Defined.

(** ** Addition of a native value *)

Section AddNative.
Variables prec emax : Z.

Lemma fadd_neg_zero_r (a : spec_float) :
  plain a = true -> fadd prec emax a (S754_zero true) = a.
Proof.
  unfold fadd, SFadd.
  destruct a as [[|]| | |]; cbn; intros H; try reflexivity; discriminate.
Qed.

Lemma fsub_neg_zero_r (a : spec_float) :
  plain a = true -> fsub prec emax a (S754_zero true) = a.
Proof.
  unfold fsub, SFsub.
  destruct a as [[|]| | |]; cbn; intros H; try reflexivity; discriminate.
Qed.

(** The six operations of [TwoSum] on [a] and [-0]: the sum and the
    recovered [a] are [a], the recovered [b] is [+0], and the corrections
    [+0] and [-0 - +0] add up to [+0]. *)
Lemma TwoSum_neg_zero_r (a : spec_float) :
  plain a = true ->
  TwoSum prec emax a (S754_zero true) = mk_two a zeropointzero.
Proof.
  intros Ha. unfold TwoSum.
  rewrite (fadd_neg_zero_r a Ha), (fsub_neg_zero_r a Ha),
    (fsub_diag prec emax a Ha).
  reflexivity.
Qed.

Lemma add_dw_fp_zero (x : two) :
  plain (h x) = true -> plain (l x) = true -> normalized prec emax x ->
  add_dw_fp prec emax x zeropointzero = x.
Proof.
  intros Hh Hl Hn. destruct x as [a b]. cbn [h l] in *.
  unfold add_dw_fp. cbn [h l].
  rewrite (TwoSum_zero_r prec emax a Hh). cbn [h l].
  rewrite (fadd_zero_r prec emax b Hl).
  now apply FastTwoSum_normalized.
Qed.

Lemma sub_dw_fp_zero (x : two) :
  plain (h x) = true -> plain (l x) = true -> normalized prec emax x ->
  sub_dw_fp prec emax x zeropointzero = x.
Proof.
  intros Hh Hl Hn. destruct x as [a b]. cbn [h l] in *.
  unfold sub_dw_fp, TwoDiff. cbn [h l fneg SFopp zeropointzero negb].
  rewrite (TwoSum_neg_zero_r a Hh). cbn [h l].
  rewrite (fadd_zero_r prec emax b Hl).
  now apply FastTwoSum_normalized.
Qed.

(** The double-word plus native addition is the Sloppy addition of the
    native value promoted to [(y, 0)]. *)
Lemma add_dw_fp_sloppy (x : two) (y : spec_float) :
  plain (l x) = true ->
  add_dw_fp prec emax x y = add_sloppy prec emax x (mk_two y zeropointzero).
Proof.
  intros Hl. unfold add_dw_fp, add_sloppy. cbn [h l].
  rewrite (fadd_zero_r prec emax (l x) Hl).
  now rewrite (fadd_comm prec emax (l x)).
Qed.

Lemma sub_dw_fp_sloppy (x : two) (y : spec_float) :
  plain (l x) = true ->
  sub_dw_fp prec emax x y = sub_sloppy prec emax x (mk_two y zeropointzero).
Proof.
  intros Hl. unfold sub_dw_fp, sub_sloppy. cbn [h l].
  rewrite (fsub_zero_r prec emax (l x) Hl).
  now rewrite (fadd_comm prec emax (l x)).
Qed.

End AddNative.

(** Adding or subtracting the native zero leaves a finite, normalised
    double-word without negative zeros unchanged, bit for bit. *)
Theorem native_zero_is_neutral (prec emax : Z) (x : two) :
  plain (h x) = true -> plain (l x) = true -> normalized prec emax x ->
  add_dw_fp prec emax x zeropointzero = x
  /\ add_fp_dw prec emax zeropointzero x = x
  /\ sub_dw_fp prec emax x zeropointzero = x.
Proof.
  intros Hh Hl Hn. unfold add_fp_dw.
  rewrite add_dw_fp_zero, sub_dw_fp_zero by assumption. now repeat split.
Qed.

(** [two<double>{-5.0, 2^-70}]. *)
Lemma native_zero_is_neutral_witness :
  let x := mk_two (F64 (-5) 0) (F64 1 (-70)) in
  (plain (h x) = true /\ plain (l x) = true /\ normalized 53 1024 x)
  /\ add_dw_fp 53 1024 x zeropointzero = x
  /\ add_fp_dw 53 1024 zeropointzero x = x
  /\ sub_dw_fp 53 1024 x zeropointzero = x.
Proof.
  cbv zeta. split; [repeat split|].
  apply (native_zero_is_neutral 53 1024); reflexivity.
Defined.

(** The double-word plus (minus) native operation returns what the Sloppy
    double-word addition (subtraction) returns when the native operand is
    promoted to the double-word [(y, 0)], provided that the low word of [x]
    is not a negative zero, an infinity or a NaN. *)
Theorem native_operand_as_sloppy (prec emax : Z) (x : two) (y : spec_float) :
  plain (l x) = true ->
  add prec emax Sloppy x (mk_two y zeropointzero)
  = Some (add_dw_fp prec emax x y)
  /\ sub prec emax Sloppy x (mk_two y zeropointzero)
     = Some (sub_dw_fp prec emax x y).
Proof.
  intros Hl. cbn [add sub].
  now rewrite add_dw_fp_sloppy, sub_dw_fp_sloppy.
Qed.

(** [two<double>{1.0, 2^-60}] and the native value 0.75. *)
Lemma native_operand_as_sloppy_witness :
  let x := mk_two (F64 1 0) (F64 1 (-60)) in
  plain (l x) = true
  /\ add 53 1024 Sloppy x (mk_two (F64 3 (-2)) zeropointzero)
     = Some (add_dw_fp 53 1024 x (F64 3 (-2)))
  /\ sub 53 1024 Sloppy x (mk_two (F64 3 (-2)) zeropointzero)
     = Some (sub_dw_fp 53 1024 x (F64 3 (-2))).
Proof.
  cbv zeta. split; [reflexivity|].
  apply (native_operand_as_sloppy 53 1024). reflexivity.
Defined.

(** ** The Taylor loop: offsets, exit condition, NaN arguments *)

Section TaylorLoop.
Variables prec emax : Z.

(** What holds when the loop has left after [n] bodies: the index has
    moved by [2 n], the loop condition is false, and the count is within
    the bound that the start index gives. *)
Lemma taylor_loop_exit (fuel : nat) :
  forall x thresh st st' n,
    taylor_loop prec emax fuel x thresh st = Some (st', n) ->
    (1 <= n)%nat
    /\ st_i st' = st_i st + 2 * Z.of_nat n
    /\ taylor_again prec emax thresh st' = false
    /\ 2 * Z.of_nat n <= Z.max 2 (n_inv_fact - st_i st + 1).
Proof.
  induction fuel as [|fuel IH]; intros x thresh st st' n; cbn [taylor_loop].
  - discriminate.
  - destruct (taylor_again prec emax thresh (taylor_body prec emax x st))
      eqn:Hagain.
    + destruct (taylor_loop prec emax fuel x thresh (taylor_body prec emax x st))
        as [[st1 n1]|] eqn:He; [|discriminate].
      intros [= <- <-].
      destruct (IH _ _ _ _ _ He) as (Hn & Hi & Hex & Hb).
      apply taylor_again_bound in Hagain.
      rewrite taylor_body_i in Hi, Hb, Hagain.
      unfold n_inv_fact in *. repeat split; try lia. exact Hex.
    + intros [= <- <-]. rewrite taylor_body_i.
      repeat split; try lia. exact Hagain.
Qed.

End TaylorLoop.

(** Every read of the reciprocal-factorial table by a Taylor loop stays
    inside the table: when the loop starts at offset 0 ([sin_taylor]) or 1
    ([cos_taylor]) and leaves after [n] bodies, body [m < n] reads the two
    numbers at offsets [i0 + 2 m] and [i0 + 2 m + 1], both below the
    [2 * n_inv_fact = 30] numbers of the table; on exit the loop condition
    is false. *)
Theorem taylor_loop_reads_in_bounds (prec emax : Z) (fuel : nat)
  (x : two) (thresh : spec_float) (st st' : taylor_state) (n : nat) :
  0 <= st_i st <= 1 ->
  taylor_loop prec emax fuel x thresh st = Some (st', n) ->
  (forall m, (m < n)%nat ->
     0 <= st_i st + 2 * Z.of_nat m
     /\ st_i st + 2 * Z.of_nat m + 1 < 2 * n_inv_fact
     /\ st_t (taylor_runs prec emax (S m) x st)
        = mul_accurate_fma prec emax
            (st_r (taylor_runs prec emax (S m) x st))
            (pair_at (flat (inv_fact prec emax)) (st_i st + 2 * Z.of_nat m)))
  /\ taylor_again prec emax thresh st' = false.
Proof.
  intros Hi Hloop.
  destruct (taylor_loop_exit prec emax fuel x thresh st st' n Hloop)
    as (Hn & _ & Hex & Hb).
  split; [|exact Hex].
  intros m Hm. unfold n_inv_fact in *.
  split; [lia|]. split; [lia|].
  apply taylor_runs_term.
Qed.

(** The loop of [sin_taylor] at [x = 1/16], which runs 8 bodies. *)
Lemma taylor_loop_reads_in_bounds_witness :
  let input := mk_two (F64 1 (-4)) zeropointzero in
  let x := neg_two (sqr 53 1024 input) in
  let st := mk_state 0 input input zero_dw in
  exists st',
    taylor_loop 53 1024 15 x (sin_thresh 53 1024 input) st = Some (st', 8%nat)
    /\ (0 <= st_i st + 2 * 7 /\ st_i st + 2 * 7 + 1 < 2 * n_inv_fact)
    /\ taylor_again 53 1024 (sin_thresh 53 1024 input) st' = false.
Proof.
  cbv zeta.
  destruct (taylor_loop 53 1024 15
              (neg_two (sqr 53 1024 (mk_two (F64 1 (-4)) zeropointzero)))
              (sin_thresh 53 1024 (mk_two (F64 1 (-4)) zeropointzero))
              (mk_state 0 (mk_two (F64 1 (-4)) zeropointzero)
                 (mk_two (F64 1 (-4)) zeropointzero) zero_dw))
    as [[st' n]|] eqn:He; [|vm_compute in He; discriminate].
  assert (Hn : n = 8%nat) by (vm_compute in He; congruence).
  subst n. exists st'. split; [reflexivity|].
  destruct (taylor_loop_reads_in_bounds 53 1024 15
              (neg_two (sqr 53 1024 (mk_two (F64 1 (-4)) zeropointzero)))
              (sin_thresh 53 1024 (mk_two (F64 1 (-4)) zeropointzero))
              (mk_state 0 (mk_two (F64 1 (-4)) zeropointzero)
                 (mk_two (F64 1 (-4)) zeropointzero) zero_dw)
              st' 8%nat (conj (Z.le_refl 0) (Z.le_0_1)) He)
    as [Hreads Hexit].
  split; [|exact Hexit].
  destruct (Hreads 7%nat (Nat.lt_succ_diag_r 7)) as (H0 & H1 & _).
  split; [exact H0|exact H1].
Defined.

Section TaylorNaN.
Variables prec emax : Z.

Lemma fgt_nan_l (a : spec_float) : fgt S754_nan a = false.
Proof. unfold fgt, SFltb. now destruct a. Qed.

Lemma sqr_nan (lo : spec_float) : sqr prec emax (mk_two S754_nan lo) = nan_pair.
Proof.
  unfold sqr, qd_two_sqr. cbn [h l]. rewrite fmul_nan_l.
  now rewrite FastTwoSum_nan_l.
Qed.

Lemma mul_accurate_fma_nan_l (lo : spec_float) (y : two) :
  mul_accurate_fma prec emax (mk_two S754_nan lo) y = nan_pair.
Proof. unfold mul_accurate_fma. push_nan. Qed.

Lemma add_accurate_nan_r (x : two) (lo : spec_float) :
  add_accurate prec emax x (mk_two S754_nan lo) = nan_pair.
Proof. unfold add_accurate. push_nan. Qed.

(** One body on a NaN power [r]: every variable becomes the NaN pair and
    the loop condition is false. *)
Lemma taylor_loop_nan (fuel : nat) (x : two) (thresh : spec_float)
  (i : Z) (lo : spec_float) (s t : two) :
  exists st',
    taylor_loop prec emax (S fuel) x thresh (mk_state i (mk_two S754_nan lo) s t)
    = Some (st', 1%nat)
    /\ st_s st' = nan_pair.
Proof.
  cbn [taylor_loop].
  assert (Hbody : taylor_body prec emax x (mk_state i (mk_two S754_nan lo) s t)
                  = mk_state (i + 2) nan_pair nan_pair nan_pair).
  { unfold taylor_body. cbn [st_i st_r st_s st_t].
    rewrite mul_accurate_fma_nan_l.
    change nan_pair with (mk_two S754_nan S754_nan) at 1 2.
    rewrite mul_accurate_fma_nan_l.
    change nan_pair with (mk_two S754_nan S754_nan) at 1.
    now rewrite add_accurate_nan_r. }
  rewrite Hbody.
  assert (Hagain : taylor_again prec emax thresh
                     (mk_state (i + 2) nan_pair nan_pair nan_pair) = false).
  { unfold taylor_again. cbn [st_i st_t]. unfold eval. cbn [h l nan_pair _nan].
    rewrite fadd_nan_l. cbn [fabs SFabs]. rewrite fgt_nan_l.
    apply andb_false_r. }
  rewrite Hagain. eexists. split; reflexivity.
Qed.

End TaylorNaN.

(** A NaN in the high word of the argument ends both Taylor kernels after
    exactly one body of the loop, with the NaN pair as result: the zero
    test is false for a NaN, and no comparison with a NaN term keeps the
    loop going. *)
Theorem taylor_kernels_on_nan (prec emax : Z) (fuel : nat) (lo : spec_float) :
  sin_taylor_run prec emax (S fuel) (mk_two S754_nan lo) = Some (nan_pair, 1%nat)
  /\ cos_taylor_run prec emax (S fuel) (mk_two S754_nan lo)
     = Some (nan_pair, 1%nat)
  /\ sin_taylor prec emax (mk_two S754_nan lo) = nan_pair
  /\ cos_taylor prec emax (mk_two S754_nan lo) = nan_pair.
Proof.
  assert (Hsin : forall f,
             sin_taylor_run prec emax (S f) (mk_two S754_nan lo)
             = Some (nan_pair, 1%nat)).
  { intros f. unfold sin_taylor_run.
    change (feq (eval prec emax (mk_two S754_nan lo)) zeropointzero) with false.
    cbv iota.
    destruct (taylor_loop_nan prec emax f
                (mk_two (fneg (h (sqr prec emax (mk_two S754_nan lo))))
                        (fneg (l (sqr prec emax (mk_two S754_nan lo)))))
                (sin_thresh prec emax (mk_two S754_nan lo)) 0 lo
                (mk_two S754_nan lo) (mk_two zeropointzero zeropointzero))
      as (st' & -> & ->).
    reflexivity. }
  assert (Hcos : forall f,
             cos_taylor_run prec emax (S f) (mk_two S754_nan lo)
             = Some (nan_pair, 1%nat)).
  { intros f. unfold cos_taylor_run.
    change (feq (eval prec emax (mk_two S754_nan lo)) zeropointzero) with false.
    cbv iota. rewrite sqr_nan. cbn [h l nan_pair _nan fneg SFopp].
    destruct (taylor_loop_nan prec emax f
                (mk_two S754_nan S754_nan) (cos_thresh prec emax) 1 S754_nan
                (add_fp_dw prec emax (onepointzero prec emax)
                   (mul_pwr2 prec emax (mk_two S754_nan S754_nan)
                      (pointfive prec emax)))
                (mk_two zeropointzero zeropointzero))
      as (st' & -> & ->).
    reflexivity. }
  split; [apply Hsin|]. split; [apply Hcos|].
  unfold sin_taylor, cos_taylor.
  change (Z.to_nat n_inv_fact) with 15%nat.
  now rewrite Hsin, Hcos.
Qed.

(** ** The table reads and the error returns of [sin] *)

(** For every [k] that passes the guards of [sin] (not zero, [abs_k] at
    most 4; [INT_MIN], whose absolute value wraps, set aside) the offset
    [2 * (abs_k - 1)] lies inside the 8 numbers of the sine and cosine
    tables, and [u] and [v] are row [abs_k - 1] of [cos_table] and
    [sin_table]. *)
Theorem sin_table_reads_in_bounds (prec emax : Z) (k : Z) :
  k <> 0 -> INT_MIN < k -> Z.ltb 4 (int_abs k) = false ->
  let o := 2 * (int_abs k - 1) in
  0 <= o /\ o + 1 < 8
  /\ pair_at (flat (cos_table prec emax)) o
     = row (cos_table prec emax) (Z.to_nat (int_abs k - 1))
  /\ pair_at (flat (sin_table prec emax)) o
     = row (sin_table prec emax) (Z.to_nat (int_abs k - 1)).
Proof.
  intros Hk Hmin Habs. cbv zeta. unfold int_abs in *.
  destruct (Z.eqb_spec k INT_MIN) as [->|_]; [lia|].
  apply Z.ltb_ge in Habs.
  assert (Hc : Z.abs k = 1 \/ Z.abs k = 2 \/ Z.abs k = 3 \/ Z.abs k = 4) by lia.
  destruct Hc as [-> | [-> | [-> | ->]]]; repeat split; try lia; reflexivity.
Qed.

(** [k = -3], as in [sin(1.0)]. *)
Lemma sin_table_reads_in_bounds_witness :
  (-3 <> 0 /\ INT_MIN < -3 /\ Z.ltb 4 (int_abs (-3)) = false)
  /\ pair_at (flat (cos_table 53 1024)) (2 * (int_abs (-3) - 1))
     = row (cos_table 53 1024) 2
  /\ pair_at (flat (sin_table 53 1024)) (2 * (int_abs (-3) - 1))
     = row (sin_table 53 1024) 2.
Proof.
  split; [split; [discriminate|split; reflexivity]|].
  assert (H3 : -3 <> 0) by discriminate.
  exact (proj2 (proj2 (sin_table_reads_in_bounds 53 1024 (-3) H3
                         eq_refl eq_refl))).
Defined.

(** The error return of [sin], read from the two guards: an argument that
    does not sum to zero and whose reduction gives [j] outside [[-2, 2]] or
    [abs_k] above 4 is answered with the NaN pair. *)
Theorem sin_error_return (prec emax : Z) (input : two) :
  feq (eval prec emax input) zeropointzero = false ->
  red_j (reduce prec emax input) < -2
  \/ 2 < red_j (reduce prec emax input)
  \/ 4 < int_abs (red_k (reduce prec emax input)) ->
  sin prec emax input = nan_pair.
Proof. apply sin_reduction_failure. Qed.

(** [sin(5.0)]: [j = 3]. *)
Lemma sin_error_return_witness :
  let input := mk_two (F64 5 0) zeropointzero in
  feq (eval 53 1024 input) zeropointzero = false
  /\ 2 < red_j (reduce 53 1024 input)
  /\ sin 53 1024 input = nan_pair.
Proof.
  cbv zeta. split; [reflexivity|]. split; [reflexivity|].
  apply (sin_error_return 53 1024); [reflexivity|].
  right. left. reflexivity.
Defined.

(** ** The instantiations that the [static_assert]s admit *)

(** Which instantiations exist does not depend on the operands:
    [add] and [sub] exist for Sloppy and Accurate; the double-word times
    native [mul] for Fast and Accurate, with or without the fused
    multiply-add (Sloppy is rejected also with it, although that path does
    not look at the mode); the double-word [mul] for Fast, and for Accurate
    only with the fused multiply-add; [div] likewise. *)
Theorem supported_instantiations (prec emax : Z) (p : Mode) (useFMA : bool)
  (x y : two) (b : spec_float) :
  (add prec emax p x y <> None <-> p <> Fast)
  /\ (sub prec emax p x y <> None <-> p <> Fast)
  /\ (mul_dw_fp prec emax p useFMA x b <> None <-> p <> Sloppy)
  /\ (mul prec emax p useFMA x y <> None
      <-> p = Fast \/ (p = Accurate /\ useFMA = true))
  /\ (div prec emax p useFMA x y <> None
      <-> p = Fast \/ (p = Accurate /\ useFMA = true)).
Proof.
  destruct p, useFMA; cbn [add sub mul_dw_fp mul div];
    repeat split; intros H; try discriminate; try congruence;
    try (now left); try (right; now split);
    try (destruct H as [H|[H H']]; discriminate).
Qed.

(** ** NaN operands of the mixed operations, of [div] and of [nint] *)

(** A NaN as native operand, or in the high word of the double-word
    operand, makes the double-word/native additions, subtractions and
    multiplications and every division return the NaN pair. *)
Theorem nan_operand_mixed_and_division (prec emax : Z) (x : two)
  (b lo : spec_float) (useFMA : bool) :
  let n := mk_two S754_nan lo in
  (add_dw_fp prec emax n b = nan_pair /\ add_dw_fp prec emax x S754_nan = nan_pair)
  /\ (sub_dw_fp prec emax n b = nan_pair
      /\ sub_dw_fp prec emax x S754_nan = nan_pair)
  /\ (sub_fp_dw prec emax b n = nan_pair
      /\ sub_fp_dw prec emax S754_nan x = nan_pair)
  /\ (mul_dw_fp_fma prec emax n b = nan_pair
      /\ mul_dw_fp_fma prec emax x S754_nan = nan_pair)
  /\ (mul_dw_fp_fast prec emax n b = nan_pair
      /\ mul_dw_fp_fast prec emax x S754_nan = nan_pair)
  /\ (mul_dw_fp_accurate prec emax n b = nan_pair
      /\ mul_dw_fp_accurate prec emax x S754_nan = nan_pair)
  /\ (div_dw_fp prec emax useFMA n b = nan_pair
      /\ div_dw_fp prec emax useFMA x S754_nan = nan_pair)
  /\ (div_fast prec emax useFMA n x = nan_pair
      /\ div_fast prec emax useFMA x n = nan_pair)
  /\ (div_accurate prec emax n x = nan_pair
      /\ div_accurate prec emax x n = nan_pair).
Proof.
  cbv zeta.
  repeat split;
    unfold add_dw_fp, sub_dw_fp, sub_fp_dw, mul_dw_fp_fma, mul_dw_fp_fast,
      mul_dw_fp_accurate, div_dw_fp, div_fast, div_accurate, mul_fast_fma,
      mul_dw_fp_fma, mul_dw_fp_accurate, add_dw_fp, TwoDiff, TwoProd;
    try destruct useFMA; push_nan.
Qed.

(** [nint] of an argument with a NaN high word is [(NaN, +0)]: the high
    word is a NaN, the low word the zero of the branch "high word is not
    an integer", and the result is not the NaN pair. *)
Theorem nint_of_nan (prec emax : Z) (lo : spec_float) :
  nint prec emax (mk_two S754_nan lo) = mk_two S754_nan zeropointzero
  /\ nint prec emax (mk_two S754_nan lo) <> nan_pair.
Proof.
  split; [reflexivity|discriminate].
Qed.
